(** * ip_isr: the proportional linearity task and the ISR task helpers

    A shallow embedding of
    - [python/lsst/ip/isr/proportionalLinearize.py] ([ProportionalLinearizeTask]),
    - [python/lsst/ip/isr/isrTask.py] ([IsrTask] and its helpers).

    Python methods that mutate the exposure in place and may raise are
    functions in a state-and-exception monad: the state survives a raise,
    as a Python object survives an exception. *)

From Stdlib Require Import ZArith QArith Lia.
From stdpp Require Import base option list strings gmap.

Local Open Scope Z_scope.

(** ** Floating point values

    Pixels are C floats and coefficients are Python floats.  The code only
    adds, multiplies and compares them, so the embedding is generic in the
    number type: the operations are those of the source ([*], [+], [==],
    [<=], [<], [isnan]) and the only facts assumed are order facts that
    IEEE 754 comparisons satisfy, NaN included.  Python's [a != b] is
    [negb (feqb a b)] and [a > b] is [fltb b a]. *)

Class Float (F : Type) := {
  f0 : F;                               (* 0.0 *)
  f1 : F;                               (* 1.0 *)
  fadd : F -> F -> F;
  fmul : F -> F -> F;
  feqb : F -> F -> bool;                (* a == b *)
  fleb : F -> F -> bool;                (* a <= b *)
  fltb : F -> F -> bool;                (* a <  b *)
  fisnan : F -> bool;
  feqb_zero : feqb f0 f0 = true;
  fleb_not_gt : forall a b, fleb a b = true -> fltb b a = false;
  fltb_fleb : forall a b, fltb a b = true -> fleb a b = true;
  feqb_fleb : forall a b, feqb a b = true -> fleb a b = true
}.

(** A concrete number type on which the embedding runs: the rationals
    with a NaN.  Arithmetic propagates NaN, every comparison with a NaN is
    false. *)

Inductive qfloat : Type :=
| QNaN
| QNum (q : Q).

Definition qf_add (a b : qfloat) : qfloat :=
  match a, b with
  | QNum x, QNum y => QNum (Qred (x + y))
  | _, _ => QNaN
  end.

Definition qf_mul (a b : qfloat) : qfloat :=
  match a, b with
  | QNum x, QNum y => QNum (Qred (x * y))
  | _, _ => QNaN
  end.

Definition qf_eqb (a b : qfloat) : bool :=
  match a, b with
  | QNum x, QNum y => Qeq_bool x y
  | _, _ => false
  end.

Definition qf_leb (a b : qfloat) : bool :=
  match a, b with
  | QNum x, QNum y => Qle_bool x y
  | _, _ => false
  end.

Definition qf_ltb (a b : qfloat) : bool :=
  match a, b with
  | QNum x, QNum y => negb (Qle_bool y x)
  | _, _ => false
  end.

Definition qf_isnan (a : qfloat) : bool :=
  match a with
  | QNaN => true
  | QNum _ => false
  end.

Lemma qf_leb_not_gt a b : qf_leb a b = true -> qf_ltb b a = false.
Proof. destruct a, b; simpl; try done. by intros ->. Qed.

Lemma qf_ltb_leb a b : qf_ltb a b = true -> qf_leb a b = true.
Proof.
  destruct a as [|x], b as [|y]; simpl; try done.
  intros Hlt. apply Qle_bool_iff.
  destruct (Qle_bool y x) eqn:E; [done|].
  apply Qlt_le_weak, Qnot_le_lt. intros Hle.
  apply Qle_bool_iff in Hle. congruence.
Qed.

Lemma qf_eqb_leb a b : qf_eqb a b = true -> qf_leb a b = true.
Proof.
  destruct a as [|x], b as [|y]; simpl; try done.
  intros Heq. apply Qle_bool_iff. apply Qeq_bool_iff in Heq.
  rewrite Heq. apply Qle_refl.
Qed.

#[export] Instance qfloat_Float : Float qfloat := {|
  f0 := QNum 0;
  f1 := QNum 1;
  fadd := qf_add;
  fmul := qf_mul;
  feqb := qf_eqb;
  fleb := qf_leb;
  fltb := qf_ltb;
  fisnan := qf_isnan;
  feqb_zero := eq_refl;
  fleb_not_gt := qf_leb_not_gt;
  fltb_fleb := qf_ltb_leb;
  feqb_fleb := qf_eqb_leb
|}.

(** ** Exceptions and the state-and-exception monad *)

Section Exceptions.
Context {F : Type}.

(** The messages of the [RuntimeError]s the two tasks raise, with the
    values their format strings interpolate. *)
Inductive message : Type :=
| Coeff1MustBeZero (coeff1 : F) (detectorId : Z) (ampName : string)
    (* "coeff[1] must be 0 for PROPORTIONAL non-linearity correction; saw %g for detector %r amplifier %r" *)
| NeedThreeCoeffs (numCoeffs : nat)
    (* "Need 3 linearity coefficients; only found %d" *)
| UnsupportedLinearityType (linearityType : string) (detectorId : Z) (ampName : string)
    (* "Unsupported linearity type %r for detector %r amplifier %r; must be PROPORTIONAL or NONE" *)
| MustBeExecutedOnAmp
    (* "This method must be executed on an amp." *)
| UnmaskedNaNs (nnans : Z).
    (* "There were %i unmasked NaNs" *)

Inductive exn : Type :=
| RuntimeError (msg : message)
| NameError (name : string)     (* a name bound neither locally nor globally *)
| IndexError                    (* detector[0] of a detector without amplifiers *)
| ValueError                    (* unpacking fewer than three values into three names *)
| LengthError                   (* a sub-image box that does not fit in its parent *)
| ExternalError (what : string). (* raised by a collaborator outside this repository *)

Inductive res (A : Type) : Type :=
| Ok (a : A)
| Raise (e : exn).
End Exceptions.

Arguments message : clear implicits.
Arguments exn : clear implicits.
Arguments res : clear implicits.
Arguments Ok {F A} a.
Arguments Raise {F A} e.

Definition M (F S A : Type) : Type := S -> res F A * S.

#[export] Instance M_ret {F S} : MRet (M F S) :=
  fun A (a : A) s => (Ok a, s).

#[export] Instance M_bind {F S} : MBind (M F S) :=
  fun A B (k : A -> M F S B) (m : M F S A) s =>
    match m s with
    | (Ok a, s') => k a s'
    | (Raise e, s') => (Raise e, s')
    end.

Definition raise {F S A} (e : exn F) : M F S A := fun s => (Raise e, s).

Definition gets {F S A} (f : S -> A) : M F S A := fun s => (Ok (f s), s).

Definition modify {F S} (f : S -> S) : M F S unit := fun s => (Ok tt, f s).

Definition raised {F A} (r : res F A) : bool :=
  match r with
  | Ok _ => false
  | Raise _ => true
  end.

(** ** Geometry and pixel planes *)

(** [afwGeom.Box2I]: an integer box given by its minimum corner and its
    dimensions. *)
Record Box2I : Type := {
  getMinX : Z;
  getMinY : Z;
  getWidth : Z;
  getHeight : Z
}.

Definition contains (b : Box2I) (x y : Z) : bool :=
  (getMinX b <=? x) && (x <? getMinX b + getWidth b) &&
  (getMinY b <=? y) && (y <? getMinY b + getHeight b).

(** The test a sub-image constructor makes with origin [PARENT]: the
    offset of the box in the parent is not negative and the box ends
    inside the parent. *)
Definition fitsIn (parent b : Box2I) : bool :=
  (0 <=? getMinX b - getMinX parent) && (0 <=? getMinY b - getMinY parent) &&
  (getMinX b - getMinX parent + getWidth b <=? getWidth parent) &&
  (getMinY b - getMinY parent + getHeight b <=? getHeight parent).

(** A plane is a numpy array: a list of rows.  [pixel arr row col] is
    [arr[row][col]]. *)
Definition pixel {A} (arr : list (list A)) (row col : nat) : option A :=
  arr !! row ≫= fun r => r !! col.

(** The array position [row], [col] of a parent with box [parent] lies
    in the box [region] (given in parent coordinates). *)
Definition inRegion (parent region : Box2I) (row col : nat) : bool :=
  contains region (getMinX parent + Z.of_nat col) (getMinY parent + Z.of_nat row).

(** In-place update of the selected positions of a plane. *)
Definition mapRegion {A} (sel : nat -> nat -> bool) (f : nat -> nat -> A -> A)
    (arr : list (list A)) : list (list A) :=
  imap (fun row r => imap (fun col v => if sel row col then f row col v else v) r) arr.

(** The mask plane dictionary: plane name to bit number. *)
Definition getUnusedPlane (d : gmap string nat) : nat :=
  map_fold (fun _ b acc => Nat.max (S b) acc) 0%nat d.

(** [Mask.addMaskPlane]: the bit of a known plane, or the first unused
    bit, registered under the name. *)
Definition addMaskPlane (name : string) (d : gmap string nat) : nat * gmap string nat :=
  match d !! name with
  | Some b => (b, d)
  | None => (getUnusedPlane d, <[name := getUnusedPlane d]> d)
  end.

Definition bitMask (b : nat) : Z := Z.shiftl 1 (Z.of_nat b).

(** The planes the framework registers by default. *)
Definition defaultMaskPlanes : gmap string nat :=
  list_to_map [("BAD", 0%nat); ("SAT", 1%nat); ("INTRP", 2%nat); ("CR", 3%nat);
               ("EDGE", 4%nat); ("DETECTED", 5%nat); ("DETECTED_NEGATIVE", 6%nat);
               ("SUSPECT", 7%nat); ("NO_DATA", 8%nat)].

Section MaskedImages.
Context {F : Type} `{!Float F}.

(** [afwImage.MaskedImageF]: image, mask and variance planes over one
    box; mask pixels are bit fields. *)
Record MaskedImage : Type := {
  mi_bbox : Box2I;
  getImage : list (list F);
  getMask : list (list Z);
  getMaskPlaneDict : gmap string nat;
  getVariance : list (list F)
}.

Definition setImage (img : list (list F)) (mi : MaskedImage) : MaskedImage :=
  {| mi_bbox := mi_bbox mi; getImage := img; getMask := getMask mi;
     getMaskPlaneDict := getMaskPlaneDict mi; getVariance := getVariance mi |}.

(** [afwImage.MaskedImageF(parent, bbox, afwImage.PARENT)]: a view of
    the parent's pixels in [bbox].  The view shares the parent's pixels,
    so it is the box it covers; the constructor raises when the box does
    not fit. *)
Definition subMaskedImage {S} (parent : MaskedImage) (bbox : Box2I) : M F S Box2I :=
  if fitsIn (mi_bbox parent) bbox then mret bbox else raise LengthError.

(** [afwDetection.Threshold(value)]: a threshold on the pixel value. *)
Record Threshold : Type := { getValue : F }.

(** Modelled from the spec: [FootprintSet(view, Threshold(t), planeName)]
    of the framework's detection library ([lsst.afw.detection]), whose
    code is not in this repository.  The spec has it flag the pixels of
    the view that exceed the threshold; the task's documentation says
    "flag pixels as SUSPECT where uncorrIm > maxUncorr".  The plane is
    registered in the mask and its bit is set, by bitwise or, in the mask
    pixels of the view whose image value is above the threshold. *)
Definition FootprintSet (view : Box2I) (threshold : Threshold) (planeName : string)
    (parent : MaskedImage) : MaskedImage :=
  let '(bit, dict) := addMaskPlane planeName (getMaskPlaneDict parent) in
  {| mi_bbox := mi_bbox parent;
     getImage := getImage parent;
     getMask :=
       mapRegion (inRegion (mi_bbox parent) view)
         (fun row col m =>
            match pixel (getImage parent) row col with
            | Some v => if fltb (getValue threshold) v then Z.lor m (bitMask bit) else m
            | None => m
            end)
         (getMask parent);
     getMaskPlaneDict := dict;
     getVariance := getVariance parent |}.

(** [arr = view.getImage().getArray(); arr *= g(arr)] written on the
    parent: every image pixel [v] of the view becomes [g v]. *)
Definition updateImage (view : Box2I) (g : F -> F) (parent : MaskedImage) : MaskedImage :=
  setImage (mapRegion (inRegion (mi_bbox parent) view) (fun _ _ v => g v) (getImage parent))
           parent.
End MaskedImages.

Arguments MaskedImage F : clear implicits.
Arguments Threshold F : clear implicits.

(** ** ProportionalLinearizeTask (proportionalLinearize.py) *)

Module ProportionalLinearizeTask.
Section Task.
Context {F : Type} `{!Float F}.

(** The amplifier record of the camera geometry, as far as the task
    reads it. *)
Record Amp : Type := {
  getName : string;
  getBBox : Box2I;
  getLinearityType : string;
  getLinearityCoeffs : list F
}.

(** A detector is indexed and iterated as the sequence of its
    amplifiers. *)
Record Detector : Type := {
  getId : Z;
  getAmps : list Amp
}.

Record Exposure : Type := {
  getDetector : Detector;
  getMaskedImage : MaskedImage F
}.

Inductive LogRecord : Type :=
| LogDebugNotWanted (detectorId : Z)
    (* "Non-linearity correction not wanted for detector %s" *)
| LogInfoApplied (detectorId : Z)
    (* "Applied linearity corrections to detector %s" *)
| LogDebugTiming (text : string).
    (* the timing pairs that the decorator of [run] records *)

(** What a call of the task can change: the exposure it is given, which
    it modifies in place, and the task's log. *)
Record Env : Type := {
  theExposure : Exposure;
  theLog : list LogRecord
}.

Definition withMaskedImage (f : MaskedImage F -> MaskedImage F) (s : Env) : Env :=
  {| theExposure := {| getDetector := getDetector (theExposure s);
                       getMaskedImage := f (getMaskedImage (theExposure s)) |};
     theLog := theLog s |}.

Definition writeLog (r : LogRecord) (s : Env) : Env :=
  {| theExposure := theExposure s; theLog := theLog s ++ [r] |}.

(** [a, b, c = l]: exactly three values are needed. *)
Definition unpack3 {S} (l : list F) : M F S (F * F * F) :=
  match l with
  | [a; b; c] => mret (a, b, c)
  | _ => raise ValueError
  end.

(** [doCorrect(self, detector)], lines 102-126. *)
Definition doCorrect {S} (detector : Detector) : M F S bool :=
  match getAmps detector with
  | [] => raise IndexError                                   (* amp = detector[0] *)
  | amp :: _ =>
      let linearityType := getLinearityType amp in
      if String.eqb linearityType "NONE" then mret false
      else if String.eqb linearityType "PROPORTIONAL" then
        let numCoeffs := length (getLinearityCoeffs amp) in
        if (numCoeffs <? 3)%nat then raise (RuntimeError (NeedThreeCoeffs numCoeffs))
        else mret true
      else raise (RuntimeError
                    (UnsupportedLinearityType linearityType (getId detector) (getName amp)))
  end.

(** The correction of line 95: [ampArr *= 1.0 + squareCoeff*ampArr]. *)
Definition correct (squareCoeff v : F) : F :=
  fmul v (fadd f1 (fmul squareCoeff v)).

(** The body of the loop over the amplifiers, lines 75-97.  It returns
    the new value of [didCorrect]; [continue] returns the old one.  The
    statement that follows the [raise] of line 78 in the same block
    (lines 81-83) cannot run and has no counterpart here. *)
Definition loopBody (detector : Detector) (amp : Amp) (didCorrect : bool) : M F Env bool :=
  '(squareCoeff, coeff1, maxUncorr) ← unpack3 (take 3 (getLinearityCoeffs amp));
  if negb (feqb coeff1 f0) then
    raise (RuntimeError (Coeff1MustBeZero coeff1 (getId detector) (getName amp)))
  else if fleb maxUncorr f0 && feqb squareCoeff f0 then
    mret didCorrect                                          (* continue *)
  else
    exposure ← gets theExposure;
    ampImage ← subMaskedImage (getMaskedImage exposure) (getBBox amp);
    (if fltb f0 maxUncorr then
       modify (withMaskedImage (FootprintSet ampImage {| getValue := maxUncorr |} "SUSPECT"))
     else mret tt);;
    (if negb (feqb squareCoeff f0) then
       modify (withMaskedImage (updateImage ampImage (correct squareCoeff)))
     else mret tt);;
    mret true.

(** [for amp in detector: ...], threading [didCorrect]. *)
Fixpoint forAmps (detector : Detector) (amps : list Amp) (didCorrect : bool)
    : M F Env bool :=
  match amps with
  | [] => mret didCorrect
  | amp :: rest =>
      didCorrect' ← loopBody detector amp didCorrect;
      forAmps detector rest didCorrect'
  end.

(** [run(self, exposure)], lines 59-100: the function that the
    decorator of line 58 wraps ([timedRun] below is the method with the
    decorator); the exposure is the one of the state. *)
Definition run : M F Env unit :=
  exposure ← gets theExposure;
  let detector := getDetector exposure in
  wanted ← doCorrect detector;
  if negb wanted then
    modify (writeLog (LogDebugNotWanted (getId detector)))
  else
    (didCorrect ← forAmps detector (getAmps detector) false;
     if didCorrect : bool then modify (writeLog (LogInfoApplied (getId detector)))
     else mret tt).

(** *** Vocabulary of the statements *)

(** What lines 88-97 do to the masked image for an amplifier with
    coefficients [squareCoeff] and [maxUncorr] and box [view]. *)
Definition ampStep (squareCoeff maxUncorr : F) (view : Box2I) (mi : MaskedImage F)
    : MaskedImage F :=
  let mi1 := if fltb f0 maxUncorr
             then FootprintSet view {| getValue := maxUncorr |} "SUSPECT" mi
             else mi in
  if negb (feqb squareCoeff f0) then updateImage view (correct squareCoeff) mi1 else mi1.

(** The number of amplifiers whose box contains an array position of
    the exposure. *)
Fixpoint coverage (parent : Box2I) (amps : list Amp) (row col : nat) : nat :=
  match amps with
  | [] => 0%nat
  | amp :: rest =>
      ((if inRegion parent (getBBox amp) row col then 1 else 0)
       + coverage parent rest row col)%nat
  end.

(** An amplifier whose square coefficient is zero and whose threshold is
    not positive: the test of line 85 holds for it. *)
Definition inert (amp : Amp) : Prop :=
  exists sq c1 t more,
    getLinearityCoeffs amp = sq :: c1 :: t :: more /\
    fleb t f0 = true /\ feqb sq f0 = true.

(** The bit of the SUSPECT plane in a mask with the given planes. *)
Definition suspectBit (dict : gmap string nat) : nat :=
  (addMaskPlane "SUSPECT" dict).1.

(** What flagging with threshold [t] does to a mask pixel, given the
    image pixel at the same position. *)
Definition flag (t : F) (bit : nat) (ov : option F) (m : Z) : Z :=
  match ov with
  | Some v => if fltb t v then Z.lor m (bitMask bit) else m
  | None => m
  end.

(** The masked image after the amplifiers of a list were corrected in
    turn, all with the same coefficients. *)
Definition ampSteps (squareCoeff maxUncorr : F) (amps : list Amp) (mi : MaskedImage F)
    : MaskedImage F :=
  foldl (fun mi amp => ampStep squareCoeff maxUncorr (getBBox amp) mi) mi amps.

(** The dimensions of a plane: the length of each row. *)
Definition shape {A} (arr : list (list A)) : list nat := length <$> arr.

(** The test of line 85 fails for the amplifier: the loop body goes on
    to lines 88-97 and sets [didCorrect]. *)
Definition active (amp : Amp) : bool :=
  match getLinearityCoeffs amp with
  | sq :: _ :: t :: _ => negb (fleb t f0 && feqb sq f0)
  | _ => false
  end.

(** The state with another log. *)
Definition setLog (lg : list LogRecord) (s : Env) : Env :=
  {| theExposure := theExposure s; theLog := lg |}.

(** The decorator of line 58, [@pipeBase.timeMethod]: the method is
    called between two calls of the library's
    [logInfo(obj=self, prefix=...)], with the name of the method and
    ["Start"] or ["End"] as the prefix, the second call in a [finally],
    so also when the method raises.  [logInfo] is given the task and
    not the exposure: it records the time in the task's log (and in the
    task's metadata, which [run] neither reads nor writes and which the
    state does not hold).  What it records is not fixed here:
    [logInfo] is any function of the prefix and the log. *)
Definition timeMethod {A} (logInfo : string -> list LogRecord -> list LogRecord)
    (name : string) (method : M F Env A) : M F Env A :=
  fun s =>
    let '(r, s') := method (setLog (logInfo (name +:+ "Start") (theLog s)) s) in
    (r, setLog (logInfo (name +:+ "End") (theLog s')) s').

(** [run] as the class has it, lines 58-100: the function under its
    decorator. *)
Definition timedRun (logInfo : string -> list LogRecord -> list LogRecord)
    : M F Env unit :=
  timeMethod logInfo "run" run.

(** The amplifier with its coefficients cut to the first three, and the
    state with every amplifier so cut. *)
Definition firstThree (amp : Amp) : Amp :=
  {| getName := getName amp; getBBox := getBBox amp;
     getLinearityType := getLinearityType amp;
     getLinearityCoeffs := take 3 (getLinearityCoeffs amp) |}.

Definition firstThreeOnly (s : Env) : Env :=
  {| theExposure :=
       {| getDetector :=
            {| getId := getId (getDetector (theExposure s));
               getAmps := firstThree <$> getAmps (getDetector (theExposure s)) |};
          getMaskedImage := getMaskedImage (theExposure s) |};
     theLog := theLog s |}.

End Task.

Arguments Amp F : clear implicits.
Arguments Detector F : clear implicits.
Arguments Exposure F : clear implicits.
Arguments Env F : clear implicits.

End ProportionalLinearizeTask.

(** ** The test fixture (tests/testProportionalLinearityTask.py) *)

Module TestProportionalLinearityTask.
Import ProportionalLinearizeTask.
Section Fixture.
Context {F : Type} `{!Float F}.

(** [afwGeom.Box2I(afwGeom.Point2I(0, 0), ampDim*2)], line 39. *)
Definition expBBox (ampDim : Z * Z) : Box2I :=
  {| getMinX := 0; getMinY := 0; getWidth := ampDim.1 * 2; getHeight := ampDim.2 * 2 |}.

(** The corner of the box of the amplifier of index [i], lines 43-46. *)
Definition ampMin (ampDim : Z * Z) (i : nat) : Z * Z :=
  (if bool_decide (i = 1%nat ∨ i = 3%nat) then ampDim.1 else 0,
   if bool_decide (i = 2%nat ∨ i = 3%nat) then ampDim.2 else 0).

Definition setBBox (bbox : Box2I) (amp : Amp F) : Amp F :=
  {| getName := getName amp; getBBox := bbox;
     getLinearityType := getLinearityType amp;
     getLinearityCoeffs := getLinearityCoeffs amp |}.

(** [makeSimpleDetector()], lines 35-48, for amplifiers of dimensions
    [ampDim] (the test has 500 by 300) and the detector [dw] that
    [DetectorWrapper(bbox=expBBox, numAmps=4)] makes: every amplifier, in
    the order of [enumerate(detector)], gets its box. *)
Definition makeSimpleDetector (ampDim : Z * Z) (dw : Detector F) : Detector F :=
  {| getId := getId dw;
     getAmps :=
       imap (fun i amp =>
               setBBox {| getMinX := (ampMin ampDim i).1; getMinY := (ampMin ampDim i).2;
                          getWidth := ampDim.1; getHeight := ampDim.2 |} amp)
            (getAmps dw) |}.

(** [for amp in detector: amp.setLinearityType(type);
    amp.setLinearityCoeffs(coeffs)], lines 87-89 and 101-102. *)
Definition setLinearity (type : string) (coeffs : list F) (detector : Detector F)
    : Detector F :=
  {| getId := getId detector;
     getAmps :=
       (fun amp => {| getName := getName amp; getBBox := getBBox amp;
                      getLinearityType := type; getLinearityCoeffs := coeffs |})
         <$> getAmps detector |}.

(** The exposure of [testBasicCorrection] before the run, lines 54-56
    and 72-89: the detector of [makeSimpleDetector] with type
    PROPORTIONAL and coefficients [(squareCoeff, 0, suspectValue)] on
    every amplifier, over the box of the detector; the image is [imArr],
    the mask is zero, the variance is the image. *)
Definition basicCorrectionExposure (ampDim : Z * Z) (dw : Detector F)
    (planes : gmap string nat) (imArr : list (list F)) (squareCoeff suspectValue : F)
    : Env F :=
  {| theExposure :=
       {| getDetector :=
            setLinearity "PROPORTIONAL" [squareCoeff; f0; suspectValue]
              (makeSimpleDetector ampDim dw);
          getMaskedImage :=
            {| mi_bbox := expBBox ampDim;
               getImage := imArr;
               getMask := map (map (fun _ : F => 0)) imArr;
               getMaskPlaneDict := planes;
               getVariance := imArr |} |};
     theLog := [] |}.

End Fixture.
End TestProportionalLinearityTask.

(** ** IsrTask (isrTask.py) *)

Module IsrTask.
Section Task.
Context {F : Type} `{!Float F}.

(** [IsrTaskConfig], lines 32-107 (the [assembleCcd] subtask apart). *)
Record IsrTaskConfig : Type := {
  doWrite : bool;
  fwhm : F;
  saturatedMaskName : string;
  flatScalingType : string;
  flatUserScale : F;
  overscanFitType : string;
  overscanPolyOrder : Z;
  growSaturationFootprintSize : Z;
  growDefectFootprintSize : Z;
  setGainAssembledCcd : bool;
  keysToRemoveFromAssembledCcd : list string;
  reNormAssembledCcd : bool
}.

(** The fields of the task object that its methods read. *)
Record Task : Type := {
  config : IsrTaskConfig;
  transposeForInterpolation : bool
}.

(** The camera geometry classes the task is given: [Amp], [Ccd] and
    [Raft] are the subclasses of [cameraGeom.Detector]. *)
Record ElectronicParams : Type := {
  getGain : F;
  getReadNoise : F;
  getSaturationLevel : F
}.

Record Amp : Type := {
  amp_getElectronicParams : ElectronicParams;
  getDiskBiasSec : Box2I
}.

Record Ccd : Type := {
  ccd_getElectronicParams : ElectronicParams;
  ccd_amps : list Amp;
  getDefects : list Box2I
}.

Inductive Detector : Type :=
| AnAmp (amp : Amp)
| ACcd (ccd : Ccd)
| ARaft (ccds : list Ccd).

(** A butler data reference: the calibration frames it can be asked
    for, by dataset name. *)
Record DataRef : Type := {
  datasets : gmap string (MaskedImage F)
}.

(** The collaborators of the task whose code is not at hand, taken as
    parameters: the functions of the module [isr] and the framework's
    sub-image constructor.  A function that works on a masked image in
    place is a computation whose state is that masked image. *)
Record Collaborators : Type := {
  isr_makeThresholdMask :
    F -> Z -> string -> M F (MaskedImage F) unit;
      (* saturation, growFootprints, maskName *)
  isr_saturationCorrection :
    F -> F -> Z -> string -> M F (MaskedImage F) unit;
      (* saturation, fwhm, growFootprints, maskName *)
  isr_overscanCorrection :
    Box2I -> string -> Z -> M F (MaskedImage F) unit;
      (* overscan view, fittype, polyorder *)
  isr_biasCorrection : MaskedImage F -> M F (MaskedImage F) unit;
  isr_updateVariance : F -> F -> M F (MaskedImage F) unit;
      (* gain, readNoise *)
  isr_getDefectListFromMask :
    string -> Z -> M F (MaskedImage F) (list Box2I);
      (* maskName, growFootprints *)
  isr_transposeMaskedImage : MaskedImage F -> res F (MaskedImage F);
  isr_transposeDefectList : list Box2I -> res F (list Box2I);
  isr_interpolateDefectList : list Box2I -> F -> M F (MaskedImage F) unit;
      (* defectList, fwhm *)
  image_Factory : MaskedImage F -> Box2I -> res F Box2I
      (* expImage.Factory(expImage, bbox): the view, or the error *)
}.

(** What a method of the task can change: the exposure it is given
    (modified in place), the task's metadata, and, as a record of what
    ran, the names of the [isr] functions called so far. *)
Record Env : Type := {
  theExposure : MaskedImage F;
  metadata : gmap string Z;
  isrCalls : list string
}.

Definition setExposure (mi : MaskedImage F) (s : Env) : Env :=
  {| theExposure := mi; metadata := metadata s; isrCalls := isrCalls s |}.

Definition metadataSet (key : string) (value : Z) (s : Env) : Env :=
  {| theExposure := theExposure s; metadata := <[key := value]> (metadata s);
     isrCalls := isrCalls s |}.

Definition recordCall (name : string) (s : Env) : Env :=
  {| theExposure := theExposure s; metadata := metadata s;
     isrCalls := isrCalls s ++ [name] |}.

(** A call [isr.name(exposure.getMaskedImage(), ...)]: the function runs
    on the masked image of the exposure. *)
Definition callOnExposure {A} (name : string) (f : M F (MaskedImage F) A) : M F Env A :=
  fun s =>
    let s1 := recordCall name s in
    let '(r, mi) := f (theExposure s1) in
    (r, setExposure mi s1).

(** A call of an [isr] function on a masked image held in a local
    variable: the result and the masked image afterwards. *)
Definition callOnLocal {A} (name : string) (f : M F (MaskedImage F) A)
    (mi : MaskedImage F) : M F Env (A * MaskedImage F) :=
  fun s =>
    let s1 := recordCall name s in
    match f mi with
    | (Ok a, mi') => (Ok (a, mi'), s1)
    | (Raise e, _) => (Raise e, s1)
    end.

(** A call of an [isr] function that returns a new object. *)
Definition callPure {A} (name : string) (r : res F A) : M F Env A :=
  fun s => (r, recordCall name s).

Definition liftRes {A} (r : res F A) : M F Env A := fun s => (r, s).

(** *** Names

    A name that is neither a parameter nor assigned in the function is
    looked up when the statement runs, in the globals of the module;
    an unbound name raises [NameError]. *)
Inductive pyobj : Type :=
| ObjModule (name : string)
| ObjClass (name : string)
| ObjTask
| ObjExposure                         (* the exposure of the state *)
| ObjDataRef (d : DataRef)
| ObjDetector (d : Detector)
| ObjDefectList (l : list Box2I).

(** The names bound at the top level of isrTask.py, lines 23-110. *)
Definition moduleGlobals : list (string * pyobj) :=
  [("afwImage", ObjModule "lsst.afw.image");
   ("measAlg", ObjModule "lsst.meas.algorithms");
   ("cameraGeom", ObjModule "lsst.afw.cameraGeom");
   ("pexConfig", ObjModule "lsst.pex.config");
   ("pipeBase", ObjModule "lsst.pipe.base");
   ("isr", ObjModule "lsst.ip.isr.isr");
   ("UnmaskedNanCounterF", ObjClass "UnmaskedNanCounterF");
   ("AssembleCcdTask", ObjClass "AssembleCcdTask");
   ("IsrTaskConfig", ObjClass "IsrTaskConfig");
   ("IsrTask", ObjClass "IsrTask")].

Fixpoint assoc (name : string) (scope : list (string * pyobj)) : option pyobj :=
  match scope with
  | [] => None
  | (n, o) :: rest => if String.eqb n name then Some o else assoc name rest
  end.

Definition loadName (locals : list (string * pyobj)) (name : string) : M F Env pyobj :=
  match assoc name (locals ++ moduleGlobals) with
  | Some o => mret o
  | None => raise (NameError name)
  end.

(** Attribute access on an object of the wrong class. *)
Definition attributeError {A} : M F Env A := raise (ExternalError "AttributeError").

(** [ref.get(name)] on whatever object the name resolved to. *)
Definition obj_get (o : pyobj) (dataset : string) : M F Env (MaskedImage F) :=
  match o with
  | ObjDataRef d =>
      match datasets d !! dataset with
      | Some mi => mret mi
      | None => raise (ExternalError "NoResults")
      end
  | _ => attributeError
  end.

(** [obj.getMaskedImage()] has to be the exposure for the call that
    follows to work on it. *)
Definition obj_isExposure (o : pyobj) : M F Env unit :=
  match o with
  | ObjExposure => mret tt
  | _ => attributeError
  end.

Definition obj_defectList (o : pyobj) : M F Env (list Box2I) :=
  match o with
  | ObjDefectList l => mret l
  | _ => attributeError
  end.

Variable isr : Collaborators.

(** [checkIsAmp(self, detector)], lines 172-178:
    [isinstance(detector, cameraGeom.Amp)]. *)
Definition checkIsAmp (detector : Detector) : bool :=
  match detector with
  | AnAmp _ => true
  | _ => false
  end.

Definition getElectronicParams (detector : Detector) : M F Env ElectronicParams :=
  match detector with
  | AnAmp amp => mret (amp_getElectronicParams amp)
  | ACcd ccd => mret (ccd_getElectronicParams ccd)
  | ARaft _ => attributeError
  end.

(** [biasCorrection(self, exposure, dataRef)], lines 180-182.  The body
    names [sensorRef] and [ccdExp], which are not its parameters. *)
Definition biasCorrection (self : Task) (dataRef : DataRef) : M F Env unit :=
  let locals := [("self", ObjTask); ("exposure", ObjExposure); ("dataRef", ObjDataRef dataRef)] in
  sensorRef ← loadName locals "sensorRef";
  biasMI ← obj_get sensorRef "bias";
  ccdExp ← loadName locals "ccdExp";
  obj_isExposure ccdExp;;
  callOnExposure "biasCorrection" (isr_biasCorrection isr biasMI).

(** [updateVariance(self, exposure, ccd)], lines 191-195.  The first
    argument of the call names [ccdExp], which is not a parameter;
    arguments are evaluated from left to right. *)
Definition updateVariance (self : Task) (ccd : Detector) : M F Env unit :=
  let locals := [("self", ObjTask); ("exposure", ObjExposure); ("ccd", ObjDetector ccd)] in
  ccdExp ← loadName locals "ccdExp";
  obj_isExposure ccdExp;;
  ep ← getElectronicParams ccd;
  ep' ← getElectronicParams ccd;
  callOnExposure "updateVariance" (isr_updateVariance isr (getGain ep) (getReadNoise ep')).

Definition mustBeAmp {A} : M F Env A := raise (RuntimeError MustBeExecutedOnAmp).


(** [saturationDetection(self, exposure, detector)], lines 230-242. *)
Definition saturationDetection (self : Task) (detector : Detector) : M F Env unit :=
  if negb (checkIsAmp detector) then mustBeAmp
  else
    ep ← getElectronicParams detector;
    let satvalue := getSaturationLevel ep in
    let maskName := saturatedMaskName (config self) in
    callOnExposure "makeThresholdMask" (isr_makeThresholdMask isr satvalue 0 maskName).

(** [overscanCorrection(self, exposure, detector)], lines 305-313. *)
Definition overscanCorrection (self : Task) (detector : Detector) : M F Env unit :=
  if negb (checkIsAmp detector) then mustBeAmp
  else
    let fittype := overscanFitType (config self) in
    let polyorder := overscanPolyOrder (config self) in
    expImage ← gets theExposure;
    biasSec ← match detector with
              | AnAmp amp => mret (getDiskBiasSec amp)
              | _ => attributeError
              end;
    overscan ← liftRes (image_Factory isr expImage biasSec);
    callOnExposure "overscanCorrection" (isr_overscanCorrection isr overscan fittype polyorder).

(** Modelled from the spec: [UnmaskedNanCounterF] of [isrLib], the
    compiled library of the package, whose code is not at hand.  The spec
    has it count the unmasked NaN pixels (the count becomes the metadata
    key NUMNANS); the comment of line 284 has it mask the pixels it
    finds, in the plane registered on line 285.  A pixel is an unmasked
    NaN when its image value is a NaN and no bit of its mask is set. *)
Definition isUnmaskedNan (v : F) (m : Z) : bool :=
  fisnan v && (m =? 0).

Definition countRow (vs : list F) (ms : list Z) : Z :=
  Z.of_nat (length (filter (fun p => isUnmaskedNan p.1 p.2 = true) (zip vs ms))).

Definition countUnmaskedNan (mi : MaskedImage F) : Z :=
  foldr Z.add 0 (zip_with countRow (getImage mi) (getMask mi)).

Definition markUnmaskedNan (mi : MaskedImage F) : MaskedImage F :=
  let bit := default 0%nat (getMaskPlaneDict mi !! "UNMASKEDNAN") in
  {| mi_bbox := mi_bbox mi;
     getImage := getImage mi;
     getMask :=
       mapRegion (fun _ _ => true)
         (fun row col m =>
            match pixel (getImage mi) row col with
            | Some v => if isUnmaskedNan v m then Z.lor m (bitMask bit) else m
            | None => m
            end)
         (getMask mi);
     getMaskPlaneDict := getMaskPlaneDict mi;
     getVariance := getVariance mi |}.

(** [unc = UnmaskedNanCounterF(); unc.apply(mi); unc.getNpix()]. *)
Definition UnmaskedNanCounterF_apply : M F Env Z :=
  fun s =>
    (Ok (countUnmaskedNan (theExposure s)), setExposure (markUnmaskedNan (theExposure s)) s).

(** [mask.addMaskPlane(name)] on the exposure's mask. *)
Definition exposure_addMaskPlane (name : string) (s : Env) : Env :=
  let mi := theExposure s in
  setExposure
    {| mi_bbox := mi_bbox mi; getImage := getImage mi; getMask := getMask mi;
       getMaskPlaneDict := (addMaskPlane name (getMaskPlaneDict mi)).2;
       getVariance := getVariance mi |} s.

(** [maskAndInterpNan(self, exposure)], lines 280-303.  The [raise] of
    line 291 is the body of the [if] of line 290.  The block under the
    [if] of line 293 assigns [undefects] and then names [uudefects]. *)
Definition maskAndInterpNan (self : Task) : M F Env unit :=
  let fwhm := fwhm (config self) in
  let grow := growDefectFootprintSize (config self) in
  modify (exposure_addMaskPlane "UNMASKEDNAN");;
  nnans ← UnmaskedNanCounterF_apply;
  modify (metadataSet "NUMNANS" nnans);;
  (if negb (nnans =? 0) then raise (RuntimeError (UnmaskedNaNs nnans)) else mret tt);;
  if 0 <? nnans then
    (undefects ← callOnExposure "getDefectListFromMask"
                   (isr_getDefectListFromMask isr "UNMASKEDNAN" grow);
     let locals := [("self", ObjTask); ("exposure", ObjExposure);
                    ("undefects", ObjDefectList undefects)] in
     if transposeForInterpolation self then
       (exposure ← gets theExposure;
        mi ← callPure "transposeMaskedImage" (isr_transposeMaskedImage isr exposure);
        uudefects ← loadName locals "uudefects";
        l ← obj_defectList uudefects;
        defectList ← callPure "transposeDefectList" (isr_transposeDefectList isr l);
        '(_, mi1) ← callOnLocal "interpolateDefectList"
                      (isr_interpolateDefectList isr defectList fwhm) mi;
        mi2 ← callPure "transposeMaskedImage" (isr_transposeMaskedImage isr mi1);
        modify (setExposure mi2))
     else
       (uudefects ← loadName locals "uudefects";
        l ← obj_defectList uudefects;
        callOnExposure "interpolateDefectList" (isr_interpolateDefectList isr l fwhm)))
  else mret tt.

(** *** The other helpers and [run]

    What [run] and the helpers below need of the framework and of [isr]
    beyond the collaborators above, taken as parameters as well.  An
    exposure is known here by its masked image, so what the framework
    derives from an exposure object (its detector, its exposure time, a
    view of a part of it) is a function of that masked image. *)
Record Framework : Type := {
  isr_floatImageFromInt : MaskedImage F -> res F (MaskedImage F);
  isr_darkCorrection : MaskedImage F -> F -> F -> M F (MaskedImage F) unit;
      (* darkMaskedImage, expScale, darkScale *)
  isr_flatCorrection : MaskedImage F -> string -> F -> M F (MaskedImage F) unit;
      (* flatMaskedImage, scalingType, userScale *)
  isr_maskPixelsFromDefectList : list Box2I -> string -> M F (MaskedImage F) unit;
      (* defectList, maskName *)
  isr_interpolateFromMask : F -> Z -> string -> M F (MaskedImage F) unit;
      (* fwhm, growFootprints, maskName *)
  dataRef_getitem : DataRef -> string -> res F (MaskedImage F);
      (* dataRef[name] *)
  getExptime : MaskedImage F -> F;
      (* exposure.getCalib().getExptime() *)
  cast_Ccd : MaskedImage F -> option Ccd;
      (* cameraGeom.cast_Ccd(exposure.getDetector()); None when the cast fails *)
  getDiskAllPixels : Amp -> Box2I;
  exposure_Factory : MaskedImage F -> Box2I -> res F (MaskedImage F);
      (* ccdExp.Factory(ccdExp, bbox): the pixels of the view, or the error *)
  exposure_update : MaskedImage F -> Box2I -> MaskedImage F -> MaskedImage F;
      (* the parent, once the pixels it shares with the view are those given *)
  cast_Amp : MaskedImage F -> Amp -> option Amp;
      (* cameraGeom.cast_Amp(ampExp.getDetector()), for the view made of
         the exposure for the amplifier; None when the cast fails *)
  assembleCcd_run : MaskedImage F -> res F (MaskedImage F);
      (* self.assembleCcd.run(ccdExp).exposure *)
  sensorRef_put : DataRef -> MaskedImage F -> string -> res F unit
}.

Variable fw : Framework.

(** [darkCorrection(self, exposure, dataRef)], lines 184-189. *)
Definition darkCorrection (self : Task) (dataRef : DataRef) : M F Env unit :=
  darkexposure ← liftRes (dataRef_getitem fw dataRef "dark");
  let darkScale := getExptime fw darkexposure in
  exposure ← gets theExposure;
  let expScale := getExptime fw exposure in
  callOnExposure "darkCorrection" (isr_darkCorrection fw darkexposure expScale darkScale).

(** [flatCorrection(self, exposure, dataRef)], lines 197-205. *)
Definition flatCorrection (self : Task) (dataRef : DataRef) : M F Env unit :=
  flatfield ← liftRes (dataRef_getitem fw dataRef "flat");
  callOnExposure "flatCorrection"
    (isr_flatCorrection fw flatfield (flatScalingType (config self))
       (flatUserScale (config self))).

(** [saturationInterpolation(self, exposure)], lines 244-255. *)
Definition saturationInterpolation (self : Task) : M F Env unit :=
  let maskName := saturatedMaskName (config self) in
  let fwhm := fwhm (config self) in
  let grow := growSaturationFootprintSize (config self) in
  if transposeForInterpolation self then
    (exposure ← gets theExposure;
     mi ← callPure "transposeMaskedImage" (isr_transposeMaskedImage isr exposure);
     '(_, mi1) ← callOnLocal "interpolateFromMask"
                   (isr_interpolateFromMask fw fwhm grow maskName) mi;
     mi2 ← callPure "transposeMaskedImage" (isr_transposeMaskedImage isr mi1);
     modify (setExposure mi2))
  else
    callOnExposure "interpolateFromMask" (isr_interpolateFromMask fw fwhm grow maskName).

(** [maskAndInterpDefect(self, exposure, detector)], lines 257-278.  The
    list built on lines 262-268 holds one defect for the box of each
    defect of the detector, in order. *)
Definition maskAndInterpDefect (self : Task) (detector : Detector) : M F Env unit :=
  let fwhm := fwhm (config self) in
  let grow := growDefectFootprintSize (config self) in
  defectBaseList ← match detector with
                   | ACcd ccd => mret (getDefects ccd)
                   | _ => attributeError
                   end;
  let defectList := (fun bbox : Box2I => bbox) <$> defectBaseList in
  callOnExposure "maskPixelsFromDefectList"
    (isr_maskPixelsFromDefectList fw defectList "BAD");;
  defectList ← callOnExposure "getDefectListFromMask"
                 (isr_getDefectListFromMask isr "BAD" grow);
  if transposeForInterpolation self then
    (exposure ← gets theExposure;
     mi ← callPure "transposeMaskedImage" (isr_transposeMaskedImage isr exposure);
     defectList ← callPure "transposeDefectList" (isr_transposeDefectList isr defectList);
     '(_, mi1) ← callOnLocal "interpolateDefectList"
                   (isr_interpolateDefectList isr defectList fwhm) mi;
     mi2 ← callPure "transposeMaskedImage" (isr_transposeMaskedImage isr mi1);
     modify (setExposure mi2))
  else
    callOnExposure "interpolateDefectList" (isr_interpolateDefectList isr defectList fwhm).

(** A helper called with the result of a cast: the detector it gives,
    or [None], which is not an instance of [cameraGeom.Amp], so that the
    amplifier-only helpers raise. *)
Definition withCastAmp (cast : option Amp) (helper : Detector -> M F Env unit)
    : M F Env unit :=
  match cast with
  | Some amp => helper (AnAmp amp)
  | None => mustBeAmp
  end.

(** A computation on a view [ampExp] of the box [bbox] of [ccdExp]:
    the view shares its pixels with the exposure, so what is done to it
    is done to the exposure, also when the computation raises. *)
Definition inView {A} (ccdExp : MaskedImage F) (bbox : Box2I) (ampExp : MaskedImage F)
    (m : M F Env A) : M F Env A :=
  fun s =>
    let '(r, s') := m (setExposure ampExp s) in
    (r, setExposure (exposure_update fw ccdExp bbox (theExposure s')) s').

(** The body of the loop of [run], lines 139-144. *)
Definition runAmp (self : Task) (amp : Amp) : M F Env unit :=
  ccdExp ← gets theExposure;
  let bbox := getDiskAllPixels fw amp in
  ampExp ← liftRes (exposure_Factory fw ccdExp bbox);
  let amp' := cast_Amp fw ccdExp amp in
  inView ccdExp bbox ampExp
    (withCastAmp amp' (saturationDetection self);;
     withCastAmp amp' (overscanCorrection self)).

Fixpoint runAmps (self : Task) (amps : list Amp) : M F Env unit :=
  match amps with
  | [] => mret tt
  | amp :: rest => runAmp self amp;; runAmps self rest
  end.

(** [run(self, sensorRef)], lines 120-170: the function that the
    decorator of line 119 wraps ([timedRun] below is the method with
    the decorator).  The exposure of the state is the one the name
    [ccdExp] is bound to; the log and the display are not part of the
    state.  The result is the exposure of the returned struct. *)
Definition run (self : Task) (sensorRef : DataRef) : M F Env (MaskedImage F) :=
  raw ← obj_get (ObjDataRef sensorRef) "raw";
  modify (setExposure raw);;
  let ccd := cast_Ccd fw raw in
  ccdExp ← callPure "floatImageFromInt" (isr_floatImageFromInt fw raw);
  modify (setExposure ccdExp);;
  amps ← match ccd with
         | Some c => mret (ccd_amps c)
         | None => raise (ExternalError "TypeError")
         end;
  runAmps self amps;;
  biasCorrection self sensorRef;;
  darkCorrection self sensorRef;;
  match ccd with
  | Some c => updateVariance self (ACcd c)
  | None => raise (NameError "ccdExp")    (* the body names [ccdExp] first *)
  end;;
  flatCorrection self sensorRef;;
  ccdExp ← gets theExposure;
  assembled ← liftRes (assembleCcd_run fw ccdExp);
  modify (setExposure assembled);;
  match cast_Ccd fw assembled with
  | Some c => maskAndInterpDefect self (ACcd c)
  | None => attributeError
  end;;
  saturationInterpolation self;;
  maskAndInterpNan self;;
  (if doWrite (config self) then
     ccdExp ← gets theExposure;
     liftRes (sensorRef_put fw sensorRef ccdExp "visitCCD")
   else mret tt);;
  gets theExposure.

(** Lines 133-144 of [run]: what runs before the call of
    [biasCorrection]. *)
Definition beforeBias (self : Task) (sensorRef : DataRef) : M F Env unit :=
  raw ← obj_get (ObjDataRef sensorRef) "raw";
  modify (setExposure raw);;
  let ccd := cast_Ccd fw raw in
  ccdExp ← callPure "floatImageFromInt" (isr_floatImageFromInt fw raw);
  modify (setExposure ccdExp);;
  amps ← match ccd with
         | Some c => mret (ccd_amps c)
         | None => raise (ExternalError "TypeError")
         end;
  runAmps self amps.

(** The state with other metadata. *)
Definition setMetadata (md : gmap string Z) (s : Env) : Env :=
  {| theExposure := theExposure s; metadata := md; isrCalls := isrCalls s |}.

(** The decorator of line 119, [@pipeBase.timeMethod]: the method is
    called between two calls of the library's
    [logInfo(obj=self, prefix=...)], with the name of the method and
    ["Start"] or ["End"] as the prefix, the second call in a [finally],
    so also when the method raises.  [logInfo] is given the task and
    not the exposure: it records the time in the task's metadata (and
    in the log, which is not part of the state).  What it records is
    not fixed here: [logInfo] is any function of the prefix and the
    metadata. *)
Definition timeMethod {A} (logInfo : string -> gmap string Z -> gmap string Z)
    (name : string) (method : M F Env A) : M F Env A :=
  fun s =>
    let '(r, s') := method (setMetadata (logInfo (name +:+ "Start") (metadata s)) s) in
    (r, setMetadata (logInfo (name +:+ "End") (metadata s')) s').

(** [run] as the class has it, lines 119-170: the function under its
    decorator. *)
Definition timedRun (logInfo : string -> gmap string Z -> gmap string Z)
    (self : Task) (sensorRef : DataRef) : M F Env (MaskedImage F) :=
  timeMethod logInfo "run" (run self sensorRef).

(** The [isr] functions that [run] calls before [biasCorrection]. *)
Definition calledBeforeBias : list string :=
  ["floatImageFromInt"; "makeThresholdMask"; "overscanCorrection"].

(** *** Vocabulary of the statements *)

(** From [s] to [s'] the metadata did not change and the [isr] functions
    called were all among [allowed]. *)
Definition callsWithin (allowed : list string) (s s' : Env) : Prop :=
  metadata s' = metadata s /\
  exists l, isrCalls s' = isrCalls s ++ l /\ Forall (fun c => c ∈ allowed) l.

(** The state [maskAndInterpNan] leaves: the plane is registered, the
    unmasked NaNs are marked, the count is in the metadata. *)
Definition afterNanCount (s : Env) : Env :=
  let s1 := exposure_addMaskPlane "UNMASKEDNAN" s in
  metadataSet "NUMNANS" (countUnmaskedNan (theExposure s))
    (setExposure (markUnmaskedNan (theExposure s1)) s1).

End Task.

Arguments IsrTaskConfig F : clear implicits.
Arguments Task F : clear implicits.
Arguments ElectronicParams F : clear implicits.
Arguments Amp F : clear implicits.
Arguments Ccd F : clear implicits.
Arguments Detector F : clear implicits.
Arguments DataRef F : clear implicits.
Arguments Collaborators F : clear implicits.
Arguments Env F : clear implicits.
Arguments pyobj F : clear implicits.
Arguments Framework F : clear implicits.

End IsrTask.

(** ** Concrete inputs

    Small exposures over the rationals with a NaN, on which the
    embedding is run. *)

Module Inputs.

Definition q (z : Z) : qfloat := QNum (inject_Z z).

Definition box (x y w h : Z) : Box2I :=
  {| getMinX := x; getMinY := y; getWidth := w; getHeight := h |}.

(** A 2 by 2 image with pixel values 1, 2 / 3, 4, an empty mask, and the
    image as variance. *)
Definition ramp : MaskedImage qfloat :=
  {| mi_bbox := box 0 0 2 2;
     getImage := [[q 1; q 2]; [q 3; q 4]];
     getMask := [[0; 0]; [0; 0]];
     getMaskPlaneDict := defaultMaskPlanes;
     getVariance := [[q 1; q 2]; [q 3; q 4]] |}.

Definition topRow : Box2I := box 0 0 2 1.
Definition bottomRow : Box2I := box 0 1 2 1.

Module Linearize.
Import ProportionalLinearizeTask.

Definition amp (name : string) (bbox : Box2I) (type : string) (coeffs : list qfloat)
    : Amp qfloat :=
  {| getName := name; getBBox := bbox; getLinearityType := type;
     getLinearityCoeffs := coeffs |}.

Definition env (amps : list (Amp qfloat)) : Env qfloat :=
  {| theExposure := {| getDetector := {| getId := 7; getAmps := amps |};
                       getMaskedImage := ramp |};
     theLog := [] |}.

(** Two amplifiers that tile the image, coefficients (2, 0, 3). *)
Definition tiled : Env qfloat :=
  env [amp "top" topRow "PROPORTIONAL" [q 2; q 0; q 3];
       amp "bottom" bottomRow "PROPORTIONAL" [q 2; q 0; q 3]].

(** One amplifier that covers the top row only, coefficients (2, 0, 3). *)
Definition topOnly : Env qfloat :=
  env [amp "top" topRow "PROPORTIONAL" [q 2; q 0; q 3]].

Definition allNone : Env qfloat :=
  env [amp "top" topRow "NONE" []; amp "bottom" bottomRow "NONE" []].

Definition allZero : Env qfloat :=
  env [amp "top" topRow "PROPORTIONAL" [q 0; q 0; q 0];
       amp "bottom" bottomRow "PROPORTIONAL" [q 0; q 0; q 0]].

Definition negativeThreshold : Amp qfloat :=
  amp "top" topRow "PROPORTIONAL" [q 0; q 0; q (-1)].

(** The second amplifier has second coefficient 1. *)
Definition secondBad : Env qfloat :=
  env [amp "top" topRow "PROPORTIONAL" [q 2; q 0; q 3];
       amp "bottom" bottomRow "PROPORTIONAL" [q 2; q 1; q 3]].

Definition detector (type : string) (coeffs : list qfloat) : Detector qfloat :=
  {| getId := 7;
     getAmps := [amp "first" topRow type coeffs;
                 amp "second" bottomRow "PROPORTIONAL" [q 2; q 0; q 3]] |}.

(** Thresholds only: coefficients (0, 0, 3). *)
Definition thresholdOnly : Env qfloat :=
  env [amp "top" topRow "PROPORTIONAL" [q 0; q 0; q 3];
       amp "bottom" bottomRow "PROPORTIONAL" [q 0; q 0; q 3]].

(** Square terms only: coefficients (2, 0, 0). *)
Definition squareOnly : Env qfloat :=
  env [amp "top" topRow "PROPORTIONAL" [q 2; q 0; q 0];
       amp "bottom" bottomRow "PROPORTIONAL" [q 2; q 0; q 0]].

(** The second amplifier has two coefficients. *)
Definition secondShort : Env qfloat :=
  env [amp "top" topRow "PROPORTIONAL" [q 2; q 0; q 3];
       amp "bottom" bottomRow "PROPORTIONAL" [q 2; q 0]].

(** Two amplifiers over the same top row. *)
Definition overlapping : Env qfloat :=
  env [amp "one" topRow "PROPORTIONAL" [q 2; q 0; q 3];
       amp "two" topRow "PROPORTIONAL" [q 2; q 0; q 3]].

(** An amplifier over the whole image and one over the bottom row,
    coefficients (2, 0, 3); the first has its zero written as 0/2. *)
Definition stacked : Env qfloat :=
  env [amp "all" (box 0 0 2 2) "PROPORTIONAL" [q 2; QNum (0 # 2); q 3];
       amp "bottom" bottomRow "PROPORTIONAL" [q 2; q 0; q 3]].

(** A detector of four amplifiers, as a detector wrapper makes it. *)
Definition wrapped : Detector qfloat :=
  {| getId := 1;
     getAmps := [amp "0" (box 0 0 0 0) "NONE" []; amp "1" (box 0 0 0 0) "NONE" [];
                 amp "2" (box 0 0 0 0) "NONE" []; amp "3" (box 0 0 0 0) "NONE" []] |}.

End Linearize.

Module Isr.
Import IsrTask.

(** Collaborators that return at once and change nothing. *)
Definition idle : Collaborators qfloat :=
  {| isr_makeThresholdMask := fun _ _ _ => mret tt;
     isr_saturationCorrection := fun _ _ _ _ => mret tt;
     isr_overscanCorrection := fun _ _ _ => mret tt;
     isr_biasCorrection := fun _ => mret tt;
     isr_updateVariance := fun _ _ => mret tt;
     isr_getDefectListFromMask := fun _ _ => mret [];
     isr_transposeMaskedImage := fun mi => Ok mi;
     isr_transposeDefectList := fun l => Ok l;
     isr_interpolateDefectList := fun _ _ => mret tt;
     image_Factory := fun _ b => Ok b |}.

(** The ramp with a NaN at row 0, column 1. *)
Definition withNan : MaskedImage qfloat :=
  {| mi_bbox := box 0 0 2 2;
     getImage := [[q 1; QNaN]; [q 3; q 4]];
     getMask := [[0; 0]; [0; 0]];
     getMaskPlaneDict := defaultMaskPlanes;
     getVariance := [[q 1; q 2]; [q 3; q 4]] |}.

Definition env (mi : MaskedImage qfloat) : Env qfloat :=
  {| theExposure := mi; metadata := ∅; isrCalls := [] |}.

Definition task : Task qfloat :=
  {| config := {| doWrite := true; fwhm := q 1; saturatedMaskName := "SAT";
                  flatScalingType := "USER"; flatUserScale := q 1;
                  overscanFitType := "MEDIAN"; overscanPolyOrder := 1;
                  growSaturationFootprintSize := 1; growDefectFootprintSize := 1;
                  setGainAssembledCcd := true; keysToRemoveFromAssembledCcd := [];
                  reNormAssembledCcd := true |};
     transposeForInterpolation := false |}.

Definition biasRef : DataRef qfloat := {| datasets := {[ "bias" := ramp ]} |}.

Definition anAmp : Amp qfloat :=
  {| amp_getElectronicParams :=
       {| getGain := q 1; getReadNoise := q 1; getSaturationLevel := q 3 |};
     getDiskBiasSec := box 0 0 1 1 |}.

Definition aCcd : Ccd qfloat :=
  {| ccd_getElectronicParams :=
       {| getGain := q 1; getReadNoise := q 1; getSaturationLevel := q 3 |};
     ccd_amps := [anAmp; anAmp];
     getDefects := [] |}.

(** A framework whose functions return at once: a view is the whole
    exposure, every cast succeeds. *)
Definition idleFramework : Framework qfloat :=
  {| isr_floatImageFromInt := fun mi => Ok mi;
     isr_darkCorrection := fun _ _ _ => mret tt;
     isr_flatCorrection := fun _ _ _ => mret tt;
     isr_maskPixelsFromDefectList := fun _ _ => mret tt;
     isr_interpolateFromMask := fun _ _ _ => mret tt;
     dataRef_getitem := fun _ _ => Ok ramp;
     getExptime := fun _ => q 1;
     cast_Ccd := fun _ => Some aCcd;
     getDiskAllPixels := fun _ => box 0 0 2 2;
     exposure_Factory := fun mi _ => Ok mi;
     exposure_update := fun _ _ view => view;
     cast_Amp := fun _ a => Some a;
     assembleCcd_run := fun mi => Ok mi;
     sensorRef_put := fun _ _ _ => Ok tt |}.

(** A data reference with a raw frame and a bias frame. *)
Definition rawRef : DataRef qfloat :=
  {| datasets := {[ "raw" := ramp; "bias" := ramp ]} |}.

End Isr.
End Inputs.

(** * Properties of ProportionalLinearizeTask *)

Ltac unfold_monad :=
  unfold mbind, M_bind, mret, M_ret, raise, gets, modify in *.

(** ** Planes and mask planes *)

Section PlaneFacts.

Lemma pixel_mapRegion {A} sel f (arr : list (list A)) row col :
  pixel (mapRegion sel f arr) row col
  = (fun v => if sel row col then f row col v else v) <$> pixel arr row col.
Proof.
  unfold pixel, mapRegion. rewrite list_lookup_imap.
  destruct (arr !! row) as [r|]; simpl; [|done].
  by rewrite list_lookup_imap.
Qed.

Lemma testbit_lor_bitMask m b : Z.testbit (Z.lor m (bitMask b)) (Z.of_nat b) = true.
Proof.
  unfold bitMask. rewrite Z.lor_spec, Z.shiftl_spec by lia.
  rewrite Z.sub_diag. simpl. apply orb_true_r.
Qed.

Lemma addMaskPlane_again name d :
  addMaskPlane name (addMaskPlane name d).2 = ((addMaskPlane name d).1, (addMaskPlane name d).2).
Proof.
  unfold addMaskPlane. destruct (d !! name) as [b|] eqn:E; simpl.
  - by rewrite E.
  - by rewrite lookup_insert_eq.
Qed.

Lemma addMaskPlane_lookup name d :
  (addMaskPlane name d).2 !! name = Some (addMaskPlane name d).1.
Proof.
  unfold addMaskPlane. destruct (d !! name) eqn:E; simpl; [done|].
  apply lookup_insert_eq.
Qed.

End PlaneFacts.

(** ** One turn of the loop *)

Section LoopBody.
Import ProportionalLinearizeTask.
Context {F : Type} `{!Float F}.
Implicit Types (amp : Amp F) (detector : Detector F) (s : Env F) (mi : MaskedImage F).

Lemma take3_inv (l : list F) a b c :
  take 3 l = [a; b; c] -> ∃ more, l = a :: b :: c :: more.
Proof.
  destruct l as [|x [|y [|z more]]]; simpl; try discriminate.
  intros [= -> -> ->]. by exists more.
Qed.

Lemma loopBody_short detector amp didCorrect s :
  (length (getLinearityCoeffs amp) < 3)%nat ->
  loopBody detector amp didCorrect s = (Raise ValueError, s).
Proof.
  intros Hlen. unfold loopBody.
  destruct (getLinearityCoeffs amp) as [|a [|b [|c l]]]; simpl in Hlen; try lia; done.
Qed.

Lemma loopBody_coeff1 detector amp didCorrect s sq c1 t more :
  getLinearityCoeffs amp = sq :: c1 :: t :: more ->
  feqb c1 f0 = false ->
  loopBody detector amp didCorrect s
  = (Raise (RuntimeError (Coeff1MustBeZero c1 (getId detector) (getName amp))), s).
Proof.
  intros Hc H1. unfold loopBody. rewrite Hc. unfold_monad. simpl. by rewrite H1.
Qed.

Lemma loopBody_skip detector amp didCorrect s sq c1 t more :
  getLinearityCoeffs amp = sq :: c1 :: t :: more ->
  feqb c1 f0 = true -> fleb t f0 = true -> feqb sq f0 = true ->
  loopBody detector amp didCorrect s = (Ok didCorrect, s).
Proof.
  intros Hc H1 Ht Hs. unfold loopBody. rewrite Hc. unfold_monad. simpl.
  by rewrite H1, Ht, Hs.
Qed.

Lemma loopBody_nofit detector amp didCorrect s sq c1 t more :
  getLinearityCoeffs amp = sq :: c1 :: t :: more ->
  feqb c1 f0 = true -> fleb t f0 && feqb sq f0 = false ->
  fitsIn (mi_bbox (getMaskedImage (theExposure s))) (getBBox amp) = false ->
  loopBody detector amp didCorrect s = (Raise LengthError, s).
Proof.
  intros Hc H1 Hact Hfit. unfold loopBody. rewrite Hc. unfold_monad. simpl.
  rewrite H1, Hact. simpl. unfold subMaskedImage. by rewrite Hfit.
Qed.

Lemma loopBody_active detector amp didCorrect s sq c1 t more :
  getLinearityCoeffs amp = sq :: c1 :: t :: more ->
  feqb c1 f0 = true -> fleb t f0 && feqb sq f0 = false ->
  fitsIn (mi_bbox (getMaskedImage (theExposure s))) (getBBox amp) = true ->
  loopBody detector amp didCorrect s
  = (Ok true, withMaskedImage (ampStep sq t (getBBox amp)) s).
Proof.
  intros Hc H1 Hact Hfit. unfold loopBody. rewrite Hc. unfold_monad. simpl.
  rewrite H1, Hact. simpl. unfold subMaskedImage. rewrite Hfit. unfold_monad.
  unfold ampStep. destruct s as [[d mi] lg].
  destruct (fltb f0 t), (feqb sq f0); reflexivity.
Qed.

Lemma loopBody_inert detector amp didCorrect s :
  inert amp ->
  (loopBody detector amp didCorrect s).2 = s ∧
  (∀ d, (loopBody detector amp didCorrect s).1 = Ok d -> d = didCorrect).
Proof.
  intros (sq & c1 & t & more & Hc & Ht & Hs).
  destruct (feqb c1 f0) eqn:H1.
  - rewrite (loopBody_skip _ _ _ _ _ _ _ _ Hc H1 Ht Hs). split; [done|]. by intros d [= ->].
  - rewrite (loopBody_coeff1 _ _ _ _ _ _ _ _ Hc H1). split; [done|]. by intros d [=].
Qed.

End LoopBody.

(** ** The loop and the run *)

Section Loop.
Import ProportionalLinearizeTask.
Context {F : Type} `{!Float F}.
Implicit Types (amp : Amp F) (detector : Detector F) (s : Env F) (mi : MaskedImage F).

Lemma forAmps_cons detector amp rest didCorrect s :
  forAmps detector (amp :: rest) didCorrect s
  = match loopBody detector amp didCorrect s with
    | (Ok d, s') => forAmps detector rest d s'
    | (Raise e, s') => (Raise e, s')
    end.
Proof. reflexivity. Qed.

Lemma forAmps_app detector l1 l2 didCorrect s :
  forAmps detector (l1 ++ l2) didCorrect s
  = match forAmps detector l1 didCorrect s with
    | (Ok d, s') => forAmps detector l2 d s'
    | (Raise e, s') => (Raise e, s')
    end.
Proof.
  revert didCorrect s. induction l1 as [|amp l1 IH]; intros didCorrect s; [done|].
  simpl app. rewrite !forAmps_cons.
  destruct (loopBody detector amp didCorrect s) as [[d|e] s']; [apply IH|done].
Qed.

Lemma forAmps_inert detector amps didCorrect s :
  Forall inert amps ->
  (forAmps detector amps didCorrect s).2 = s.
Proof.
  induction 1 as [|amp rest Hamp _ IH]; [done|].
  rewrite forAmps_cons.
  destruct (loopBody_inert detector amp didCorrect s Hamp) as [Hs Hd].
  destruct (loopBody detector amp didCorrect s) as [[d|e] s']; simpl in *; subst s'.
  - rewrite (Hd d eq_refl). apply IH.
  - done.
Qed.

Lemma forAmps_raises detector amps amp c1 didCorrect s :
  amp ∈ amps ->
  getLinearityCoeffs amp !! 1%nat = Some c1 ->
  feqb c1 f0 = false ->
  ∃ e, (forAmps detector amps didCorrect s).1 = Raise e.
Proof.
  intros Hin Hc H1. revert didCorrect s.
  induction Hin as [amp rest|amp other rest Hin IH]; intros didCorrect s;
    rewrite forAmps_cons.
  - destruct (getLinearityCoeffs amp) as [|sq [|c1' [|t more]]] eqn:Hcs;
      simplify_eq/=.
    + rewrite loopBody_short by (rewrite Hcs; simpl; lia). by eexists.
    + erewrite loopBody_coeff1 by done. by eexists.
  - destruct (loopBody detector other didCorrect s) as [[d|e] s']; [apply IH; done|].
    by eexists.
Qed.

Lemma doCorrect_pure {S} detector (s : S) :
  doCorrect detector s = ((doCorrect detector s).1, s).
Proof.
  unfold doCorrect. unfold_monad.
  destruct (getAmps detector); [done|].
  repeat case_match; done.
Qed.

(** The exposure after [run] is the exposure after the loop, when the
    loop runs at all. *)
Lemma run_exposure s :
  theExposure (run s).2
  = match (doCorrect (getDetector (theExposure s)) s).1 with
    | Ok true =>
        theExposure
          (forAmps (getDetector (theExposure s))
                   (getAmps (getDetector (theExposure s))) false s).2
    | _ => theExposure s
    end.
Proof.
  unfold run. unfold_monad. simpl.
  rewrite (doCorrect_pure _ s).
  destruct (doCorrect (getDetector (theExposure s)) s).1 as [[]|e]; simpl; try done.
  destruct (forAmps _ _ _ _) as [[[]|e] s']; done.
Qed.

Lemma run_result s :
  (doCorrect (getDetector (theExposure s)) s).1 = Ok true ->
  run s
  = match forAmps (getDetector (theExposure s))
                  (getAmps (getDetector (theExposure s))) false s with
    | (Ok true, s') =>
        (Ok tt, writeLog (LogInfoApplied (getId (getDetector (theExposure s)))) s')
    | (Ok false, s') => (Ok tt, s')
    | (Raise e, s') => (Raise e, s')
    end.
Proof.
  intros Hdo. unfold run. unfold_monad. simpl.
  rewrite (doCorrect_pure _ s), Hdo. simpl.
  destruct (forAmps _ _ _ _) as [[[]|e] s']; done.
Qed.

End Loop.

(** ** What a corrected amplifier does to a pixel *)

Section AmpStep.
Import ProportionalLinearizeTask.
Context {F : Type} `{!Float F}.
Implicit Types (amp : Amp F) (detector : Detector F) (s : Env F) (mi : MaskedImage F).

Lemma suspectBit_again d : suspectBit (addMaskPlane "SUSPECT" d).2 = suspectBit d.
Proof. unfold suspectBit. by rewrite addMaskPlane_again. Qed.

Lemma ampStep_bbox sq t view mi : mi_bbox (ampStep sq t view mi) = mi_bbox mi.
Proof.
  unfold ampStep, FootprintSet, updateImage, setImage.
  destruct (fltb f0 t), (negb (feqb sq f0)); simpl; try done;
    by destruct (addMaskPlane _ _).
Qed.

Lemma ampStep_variance sq t view mi : getVariance (ampStep sq t view mi) = getVariance mi.
Proof.
  unfold ampStep, FootprintSet, updateImage, setImage.
  destruct (fltb f0 t), (negb (feqb sq f0)); simpl; try done;
    by destruct (addMaskPlane _ _).
Qed.

Lemma ampStep_dict sq t view mi :
  fltb f0 t = true ->
  getMaskPlaneDict (ampStep sq t view mi) = (addMaskPlane "SUSPECT" (getMaskPlaneDict mi)).2.
Proof.
  intros Ht. unfold ampStep, FootprintSet, updateImage, setImage. rewrite Ht.
  destruct (negb (feqb sq f0)); simpl; by destruct (addMaskPlane _ _).
Qed.

Lemma ampStep_image sq t view mi row col :
  feqb sq f0 = false ->
  pixel (getImage (ampStep sq t view mi)) row col
  = (fun v => if inRegion (mi_bbox mi) view row col then correct sq v else v)
      <$> pixel (getImage mi) row col.
Proof.
  intros Hs. unfold ampStep. rewrite Hs. simpl. unfold updateImage, setImage. simpl.
  rewrite pixel_mapRegion.
  destruct (fltb f0 t); [|done].
  unfold FootprintSet. by destruct (addMaskPlane _ _).
Qed.

Lemma ampStep_mask sq t view mi row col :
  fltb f0 t = true ->
  pixel (getMask (ampStep sq t view mi)) row col
  = (fun m => if inRegion (mi_bbox mi) view row col
              then flag t (suspectBit (getMaskPlaneDict mi)) (pixel (getImage mi) row col) m
              else m)
      <$> pixel (getMask mi) row col.
Proof.
  intros Ht. unfold ampStep. rewrite Ht.
  assert (Hfs : pixel (getMask (FootprintSet view {| getValue := t |} "SUSPECT" mi)) row col
                = (fun m => if inRegion (mi_bbox mi) view row col
                            then flag t (suspectBit (getMaskPlaneDict mi))
                                   (pixel (getImage mi) row col) m
                            else m) <$> pixel (getMask mi) row col).
  { unfold FootprintSet, suspectBit.
    destruct (addMaskPlane _ _) as [bit dict]. simpl. by rewrite pixel_mapRegion. }
  destruct (negb (feqb sq f0)); [|done].
  unfold updateImage, setImage. done.
Qed.

End AmpStep.

(** ** Amplifiers with the same coefficients (s, 0, t), s non-zero, t > 0 *)

Section UniformAmps.
Import ProportionalLinearizeTask.
Context {F : Type} `{!Float F}.
Implicit Types (amp : Amp F) (detector : Detector F) (s : Env F) (mi : MaskedImage F).

Variables sq t : F.
Hypothesis Hsq : feqb sq f0 = false.
Hypothesis Ht : fltb f0 t = true.

Lemma ampSteps_bbox amps mi : mi_bbox (ampSteps sq t amps mi) = mi_bbox mi.
Proof.
  revert mi. induction amps as [|amp rest IH]; intros mi; [done|].
  unfold ampSteps in *. simpl. by rewrite IH, ampStep_bbox.
Qed.

Lemma ampSteps_variance amps mi : getVariance (ampSteps sq t amps mi) = getVariance mi.
Proof.
  revert mi. induction amps as [|amp rest IH]; intros mi; [done|].
  unfold ampSteps in *. simpl. by rewrite IH, ampStep_variance.
Qed.

Lemma forAmps_uniform detector amps didCorrect s :
  Forall (fun amp => ∃ more, getLinearityCoeffs amp = sq :: f0 :: t :: more) amps ->
  Forall (fun amp => fitsIn (mi_bbox (getMaskedImage (theExposure s))) (getBBox amp) = true)
         amps ->
  forAmps detector amps didCorrect s
  = (Ok (match amps with [] => didCorrect | _ => true end),
     withMaskedImage (ampSteps sq t amps) s).
Proof.
  intros Hco. revert didCorrect s.
  induction Hco as [|amp rest [more Hc] _ IH]; intros didCorrect s Hfit.
  - by destruct s as [[d mi] lg].
  - apply Forall_cons in Hfit as [Hfit Hfits].
    rewrite forAmps_cons.
    erewrite loopBody_active; [|exact Hc|apply feqb_zero| |exact Hfit].
    2:{ rewrite Hsq. apply andb_false_r. }
    rewrite IH.
    + by destruct rest.
    + simpl. by rewrite ampStep_bbox.
Qed.

(** A position covered by no amplifier of the list keeps its pixels; a
    position covered by exactly one gets the correction once, and the
    flag from the value it had. *)
Lemma ampSteps_pixel amps : ∀ mi row col,
  (coverage (mi_bbox mi) amps row col = 0%nat ->
   pixel (getImage (ampSteps sq t amps mi)) row col = pixel (getImage mi) row col ∧
   pixel (getMask (ampSteps sq t amps mi)) row col = pixel (getMask mi) row col) ∧
  (coverage (mi_bbox mi) amps row col = 1%nat ->
   pixel (getImage (ampSteps sq t amps mi)) row col
   = correct sq <$> pixel (getImage mi) row col ∧
   pixel (getMask (ampSteps sq t amps mi)) row col
   = flag t (suspectBit (getMaskPlaneDict mi)) (pixel (getImage mi) row col)
       <$> pixel (getMask mi) row col).
Proof.
  induction amps as [|amp rest IH]; intros mi row col.
  - split; [done|]. simpl. discriminate.
  - change (ampSteps sq t (amp :: rest) mi)
      with (ampSteps sq t rest (ampStep sq t (getBBox amp) mi)).
    specialize (IH (ampStep sq t (getBBox amp) mi) row col).
    rewrite ampStep_bbox in IH. destruct IH as [IH0 IH1].
    rewrite (ampStep_image _ _ _ _ _ _ Hsq), (ampStep_mask _ _ _ _ _ _ Ht) in IH0, IH1.
    rewrite (ampStep_dict _ _ _ _ Ht), suspectBit_again in IH1.
    simpl coverage.
    destruct (inRegion (mi_bbox mi) (getBBox amp) row col) eqn:Hin; simpl.
    + split; [discriminate|]. intros Hcov.
      destruct IH0 as [-> ->]; [lia|]. done.
    + split; intros Hcov.
      * destruct IH0 as [-> ->]; [done|].
        by destruct (pixel (getImage mi) row col), (pixel (getMask mi) row col).
      * destruct IH1 as [-> ->]; [done|].
        destruct (pixel (getImage mi) row col), (pixel (getMask mi) row col); done.
Qed.

Lemma ampSteps_dict amps mi :
  amps ≠ [] ->
  getMaskPlaneDict (ampSteps sq t amps mi) !! "SUSPECT"
  = Some (suspectBit (getMaskPlaneDict mi)).
Proof.
  revert mi. induction amps as [|amp rest IH]; intros mi Hne; [done|].
  change (ampSteps sq t (amp :: rest) mi)
    with (ampSteps sq t rest (ampStep sq t (getBBox amp) mi)).
  destruct rest as [|amp' rest].
  - unfold ampSteps. simpl. rewrite ampStep_dict by done. apply addMaskPlane_lookup.
  - rewrite IH by done. by rewrite ampStep_dict, suspectBit_again.
Qed.

(** The loop over amplifiers whose second coefficient compares equal to
    zero, whatever its value. *)
Lemma forAmps_uniform_zero detector amps didCorrect s :
  Forall (fun amp => ∃ c1 more, getLinearityCoeffs amp = sq :: c1 :: t :: more ∧
                                feqb c1 f0 = true) amps ->
  Forall (fun amp => fitsIn (mi_bbox (getMaskedImage (theExposure s))) (getBBox amp) = true)
         amps ->
  forAmps detector amps didCorrect s
  = (Ok (match amps with [] => didCorrect | _ => true end),
     withMaskedImage (ampSteps sq t amps) s).
Proof.
  intros Hco. revert didCorrect s.
  induction Hco as [|amp rest (c1 & more & Hc & H1) _ IH]; intros didCorrect s Hfit.
  - by destruct s as [[d mi] lg].
  - apply Forall_cons in Hfit as [Hfit Hfits].
    rewrite forAmps_cons.
    erewrite loopBody_active; [|exact Hc|exact H1| |exact Hfit].
    2:{ rewrite Hsq. apply andb_false_r. }
    rewrite IH.
    + by destruct rest.
    + simpl. by rewrite ampStep_bbox.
Qed.

(** A mask pixel that has the SUSPECT bit keeps its value, whatever the
    amplifiers that follow do at its position. *)
Lemma ampSteps_stays_flagged amps : ∀ mi row col m,
  pixel (getMask mi) row col
  = Some (Z.lor m (bitMask (suspectBit (getMaskPlaneDict mi)))) ->
  pixel (getMask (ampSteps sq t amps mi)) row col
  = Some (Z.lor m (bitMask (suspectBit (getMaskPlaneDict mi)))).
Proof.
  induction amps as [|amp rest IH]; intros mi row col m Hm; [done|].
  change (ampSteps sq t (amp :: rest) mi)
    with (ampSteps sq t rest (ampStep sq t (getBBox amp) mi)).
  specialize (IH (ampStep sq t (getBBox amp) mi) row col m).
  rewrite (ampStep_dict _ _ _ _ Ht), suspectBit_again in IH.
  apply IH. rewrite (ampStep_mask _ _ _ _ _ _ Ht), Hm. simpl. f_equal.
  destruct (inRegion _ _ _ _); [|done].
  unfold flag. destruct (pixel (getImage mi) row col) as [v|]; [|done].
  destruct (fltb t v); [|done].
  by rewrite <- Z.lor_assoc, Z.lor_diag.
Qed.

(** A position covered by one amplifier or more, whose value exceeds
    the threshold, gets the SUSPECT bit: the first amplifier that covers
    it sees the value as it was and sets the bit, and the bit stays. *)
Lemma ampSteps_flagged amps : ∀ mi row col v m,
  pixel (getImage mi) row col = Some v ->
  pixel (getMask mi) row col = Some m ->
  fltb t v = true ->
  (1 <= coverage (mi_bbox mi) amps row col)%nat ->
  pixel (getMask (ampSteps sq t amps mi)) row col
  = Some (Z.lor m (bitMask (suspectBit (getMaskPlaneDict mi)))).
Proof.
  induction amps as [|amp rest IH]; intros mi row col v m Hv Hm Hgt Hcov.
  { simpl in Hcov. lia. }
  change (ampSteps sq t (amp :: rest) mi)
    with (ampSteps sq t rest (ampStep sq t (getBBox amp) mi)).
  simpl coverage in Hcov.
  pose proof (ampStep_mask sq t (getBBox amp) mi row col Ht) as Hmask.
  pose proof (ampStep_image sq t (getBBox amp) mi row col Hsq) as Himg.
  rewrite Hm, Hv in Hmask. rewrite Hv in Himg. simpl in Hmask, Himg.
  rewrite <- (suspectBit_again (getMaskPlaneDict mi)),
    <- (ampStep_dict sq t (getBBox amp) mi Ht).
  destruct (inRegion (mi_bbox mi) (getBBox amp) row col) eqn:Hin.
  - rewrite Hgt in Hmask.
    apply ampSteps_stays_flagged.
    by rewrite (ampStep_dict _ _ _ _ Ht), suspectBit_again.
  - eapply IH; [exact Himg|exact Hmask|exact Hgt|].
    rewrite ampStep_bbox. simpl in Hcov. exact Hcov.
Qed.

End UniformAmps.

(** ** The statements about the task *)

Section LinearizeClaims.
Import ProportionalLinearizeTask.
Context {F : Type} `{!Float F}.
Implicit Types (amp : Amp F) (detector : Detector F) (s : Env F) (mi : MaskedImage F).

(** C1, as amended: every amplifier has type PROPORTIONAL and
    coefficients (s, c1, t) with s non-zero, c1 comparing equal to zero
    and t > 0, and its box fits in the image.  Then [run] returns.  At
    every position that lies in the box of exactly one amplifier the
    pixel value v becomes v*(1+s*v), and the mask pixel is as before
    when v <= t.  At every position that lies in the box of one
    amplifier or more and has v > t the SUSPECT bit of the mask is set,
    the other bits as before.  A position in no amplifier's box keeps
    its pixels.  The variance plane is as before. *)
Theorem run_proportional_correction s sq t :
  let exposure := theExposure s in
  let mi := getMaskedImage exposure in
  let amps := getAmps (getDetector exposure) in
  let bit := suspectBit (getMaskPlaneDict mi) in
  feqb sq f0 = false ->
  fltb f0 t = true ->
  amps ≠ [] ->
  Forall (fun amp => getLinearityType amp = "PROPORTIONAL" ∧
                     ∃ c1, take 3 (getLinearityCoeffs amp) = [sq; c1; t] ∧
                           feqb c1 f0 = true) amps ->
  Forall (fun amp => fitsIn (mi_bbox mi) (getBBox amp) = true) amps ->
  ∃ s',
    run s = (Ok tt, s') ∧
    let mi' := getMaskedImage (theExposure s') in
    getDetector (theExposure s') = getDetector exposure ∧
    getVariance mi' = getVariance mi ∧
    getMaskPlaneDict mi' !! "SUSPECT" = Some bit ∧
    ∀ row col v,
      pixel (getImage mi) row col = Some v ->
      (coverage (mi_bbox mi) amps row col = 1%nat ->
       pixel (getImage mi') row col = Some (correct sq v) ∧
       ∀ m, pixel (getMask mi) row col = Some m ->
            (fltb t v = true ->
             pixel (getMask mi') row col = Some (Z.lor m (bitMask bit)) ∧
             Z.testbit (Z.lor m (bitMask bit)) (Z.of_nat bit) = true) ∧
            (fleb v t = true -> pixel (getMask mi') row col = Some m)) ∧
      ((1 <= coverage (mi_bbox mi) amps row col)%nat ->
       fltb t v = true ->
       ∀ m, pixel (getMask mi) row col = Some m ->
            pixel (getMask mi') row col = Some (Z.lor m (bitMask bit)) ∧
            Z.testbit (Z.lor m (bitMask bit)) (Z.of_nat bit) = true) ∧
      (coverage (mi_bbox mi) amps row col = 0%nat ->
       pixel (getImage mi') row col = Some v ∧
       ∀ m, pixel (getMask mi) row col = Some m ->
            pixel (getMask mi') row col = Some m).
Proof.
  intros exposure mi amps bit Hsq Ht Hne Hall Hfit.
  assert (Hco : Forall (fun amp => ∃ c1 more,
                          getLinearityCoeffs amp = sq :: c1 :: t :: more ∧
                          feqb c1 f0 = true) amps).
  { eapply Forall_impl; [exact Hall|]. intros amp (_ & c1 & Htk & H1).
    apply take3_inv in Htk as [more Hc]. by exists c1, more. }
  assert (Hdo : (doCorrect (getDetector exposure) s).1 = Ok true).
  { unfold doCorrect. fold amps. destruct Hall as [|amp rest (Hty & c1 & Htk & _) _]; [done|].
    rewrite Hty. simpl. apply take3_inv in Htk as [more ->]. done. }
  exists (writeLog (LogInfoApplied (getId (getDetector exposure)))
            (withMaskedImage (ampSteps sq t amps) s)).
  split.
  { rewrite (run_result s Hdo). fold exposure amps.
    rewrite (forAmps_uniform_zero sq t Hsq _ _ _ _ Hco Hfit). by destruct amps. }
  simpl. fold exposure mi.
  split; [done|]. split; [apply ampSteps_variance|].
  split; [by apply ampSteps_dict|].
  intros row col v Hv.
  destruct (ampSteps_pixel sq t Hsq Ht amps mi row col) as [H0 H1].
  split; [|split]; intros Hcov.
  - destruct (H1 Hcov) as [Himg Hmask]. rewrite Himg, Hmask, Hv. split; [done|].
    intros m Hm. rewrite Hm. simpl. split.
    + intros Hgt. rewrite Hgt. split; [done|]. apply testbit_lor_bitMask.
    + intros Hle. by rewrite (fleb_not_gt _ _ Hle).
  - intros Hgt m Hm. split; [|apply testbit_lor_bitMask].
    by apply (ampSteps_flagged sq t Hsq Ht amps mi row col v m).
  - destruct (H0 Hcov) as [Himg Hmask]. rewrite Himg, Hmask. split; [done|].
    by intros m Hm.
Qed.

(** C4: [doCorrect] looks at the first amplifier only: false for type
    NONE, true for type PROPORTIONAL with at least three coefficients, an
    error for PROPORTIONAL with fewer, an error for any other type. *)
Theorem doCorrect_first_amplifier {S} detector amp rest (s : S) :
  getAmps detector = amp :: rest ->
  (getLinearityType amp = "NONE" -> doCorrect detector s = (Ok false, s)) ∧
  (getLinearityType amp = "PROPORTIONAL" ->
   (3 <= length (getLinearityCoeffs amp))%nat ->
   doCorrect detector s = (Ok true, s)) ∧
  (getLinearityType amp = "PROPORTIONAL" ->
   (length (getLinearityCoeffs amp) < 3)%nat ->
   doCorrect detector s
   = (Raise (RuntimeError (NeedThreeCoeffs (length (getLinearityCoeffs amp)))), s)) ∧
  (getLinearityType amp ≠ "NONE" -> getLinearityType amp ≠ "PROPORTIONAL" ->
   doCorrect detector s
   = (Raise (RuntimeError (UnsupportedLinearityType (getLinearityType amp)
                             (getId detector) (getName amp))), s)) ∧
  (∀ others,
     doCorrect {| getId := getId detector; getAmps := amp :: others |} s
     = doCorrect detector s).
Proof.
  intros Hamps. unfold doCorrect. rewrite Hamps. unfold_monad. simpl.
  repeat split.
  - by intros ->.
  - intros -> Hlen. simpl. by destruct (Nat.ltb_spec (length (getLinearityCoeffs amp)) 3); [lia|].
  - intros -> Hlen. simpl. by destruct (Nat.ltb_spec (length (getLinearityCoeffs amp)) 3); [|lia].
  - intros Hn Hp.
    destruct (String.eqb_spec (getLinearityType amp) "NONE"); [done|].
    by destruct (String.eqb_spec (getLinearityType amp) "PROPORTIONAL").
Qed.

(** C5: when correction is wanted and some amplifier reports a second
    coefficient that is not zero, [run] raises. *)
Theorem run_raises_on_nonzero_coeff1 s amp c1 :
  (doCorrect (getDetector (theExposure s)) s).1 = Ok true ->
  amp ∈ getAmps (getDetector (theExposure s)) ->
  getLinearityCoeffs amp !! 1%nat = Some c1 ->
  feqb c1 f0 = false ->
  ∃ e, (run s).1 = Raise e.
Proof.
  intros Hdo Hin Hc H1. rewrite (run_result s Hdo).
  destruct (forAmps_raises (getDetector (theExposure s)) _ amp c1 false s Hin Hc H1)
    as [e He].
  destruct (forAmps _ _ _ _) as [[d|e'] s']; simpl in He; [done|].
  by exists e'.
Qed.

(** C6: when every amplifier has linearity type NONE, the exposure after
    [run] is the exposure before it: image, mask and variance planes
    included. *)
Theorem run_NONE_unchanged s :
  Forall (fun amp => getLinearityType amp = "NONE")
         (getAmps (getDetector (theExposure s))) ->
  theExposure (run s).2 = theExposure s.
Proof.
  intros Hall. rewrite run_exposure. unfold doCorrect. unfold_monad.
  destruct Hall as [|amp rest Hnone _]; [done|]. by rewrite Hnone.
Qed.

(** C8: with square coefficient 0 and threshold 0 on every amplifier, a
    run leaves the exposure as it is, and so does a second run. *)
Theorem run_zero_coeffs_twice s :
  Forall (fun amp => getLinearityType amp = "PROPORTIONAL" ∧
                     ∃ sq c1 t more,
                       getLinearityCoeffs amp = sq :: c1 :: t :: more ∧
                       feqb sq f0 = true ∧ feqb t f0 = true)
         (getAmps (getDetector (theExposure s))) ->
  theExposure (run s).2 = theExposure s ∧
  theExposure (run (run s).2).2 = theExposure (run s).2.
Proof.
  intros Hall.
  assert (Hone : ∀ s', theExposure s' = theExposure s ->
                       theExposure (run s').2 = theExposure s').
  { intros s' Heq. rewrite run_exposure.
    destruct (doCorrect _ s').1 as [[]|e]; try done.
    rewrite forAmps_inert; [done|]. rewrite Heq.
    eapply Forall_impl; [exact Hall|].
    intros amp (_ & sq & c1 & t & more & Hc & Hs & Ht).
    exists sq, c1, t, more. auto using feqb_fleb. }
  split; [by apply Hone|]. apply Hone. by apply Hone.
Qed.

(** C9: an amplifier with square coefficient 0 and a negative threshold
    is skipped: the loop body changes nothing (no pixel, no flag), and
    with a zero second coefficient the loop goes on to the next
    amplifier with [didCorrect] as it was. *)
Theorem loopBody_negative_threshold_skips detector amp didCorrect s sq c1 t more :
  getLinearityCoeffs amp = sq :: c1 :: t :: more ->
  feqb sq f0 = true ->
  fltb t f0 = true ->
  (loopBody detector amp didCorrect s).2 = s ∧
  (feqb c1 f0 = true ->
   loopBody detector amp didCorrect s = (Ok didCorrect, s) ∧
   ∀ rest, forAmps detector (amp :: rest) didCorrect s
           = forAmps detector rest didCorrect s).
Proof.
  intros Hc Hs Ht. pose proof (fltb_fleb _ _ Ht) as Hle. split.
  - apply loopBody_inert. by exists sq, c1, t, more.
  - intros H1. pose proof (loopBody_skip detector _ didCorrect s _ _ _ _ Hc H1 Hle Hs) as Hskip.
    split; [done|]. intros rest. by rewrite forAmps_cons, Hskip.
Qed.

(** C10: when [run] raises at an amplifier whose second coefficient is
    not zero, the state it leaves is the state the loop had reached: the
    amplifiers that came earlier keep what was done to them. *)
Theorem run_error_keeps_earlier_corrections s before bad after didCorrect s1 sq c1 t more :
  (doCorrect (getDetector (theExposure s)) s).1 = Ok true ->
  getAmps (getDetector (theExposure s)) = before ++ bad :: after ->
  forAmps (getDetector (theExposure s)) before false s = (Ok didCorrect, s1) ->
  getLinearityCoeffs bad = sq :: c1 :: t :: more ->
  feqb c1 f0 = false ->
  run s = (Raise (RuntimeError (Coeff1MustBeZero c1 (getId (getDetector (theExposure s)))
                                  (getName bad))), s1).
Proof.
  intros Hdo Hamps Hbefore Hc H1.
  rewrite (run_result s Hdo), Hamps, forAmps_app, Hbefore, forAmps_cons.
  by erewrite loopBody_coeff1.
Qed.

End LinearizeClaims.

(** * Properties of IsrTask *)

Section IsrClaims.
Import IsrTask.
Context {F : Type} `{!Float F}.
Variable isr : Collaborators F.
Implicit Types (self : Task F) (s : Env F).

(** C2: [maskAndInterpNan] sets NUMNANS to the count of unmasked NaN
    pixels and raises exactly when the count is not zero; no function of
    [isr] is called, whatever the count: the interpolation block never
    runs. *)
Theorem maskAndInterpNan_spec self s :
  let n := countUnmaskedNan (theExposure s) in
  maskAndInterpNan isr self s
  = (if n =? 0 then Ok tt else Raise (RuntimeError (UnmaskedNaNs n)), afterNanCount s) ∧
  metadata (maskAndInterpNan isr self s).2 !! "NUMNANS" = Some n ∧
  (raised (maskAndInterpNan isr self s).1 = true ↔ n ≠ 0) ∧
  isrCalls (maskAndInterpNan isr self s).2 = isrCalls s.
Proof.
  intros n.
  assert (Heq : maskAndInterpNan isr self s
                = (if n =? 0 then Ok tt else Raise (RuntimeError (UnmaskedNaNs n)),
                   afterNanCount s)).
  { unfold maskAndInterpNan, UnmaskedNanCounterF_apply. unfold_monad. simpl.
    unfold afterNanCount. simpl.
    change (countUnmaskedNan {| mi_bbox := _; getImage := _; getMask := _;
                                getMaskPlaneDict := _; getVariance := _ |}) with n.
    fold n. clearbody n.
    destruct (Z.eqb_spec n 0) as [->|Hnz]; reflexivity. }
  rewrite Heq. split; [done|]. split; [apply lookup_insert_eq|]. split; [|done].
  destruct (Z.eqb_spec n 0); simpl; split; intros; done.
Qed.

(** C3: [biasCorrection] and [updateVariance] name variables that are
    bound nowhere: each raises [NameError] before any collaborator is
    called, and the exposure is as before. *)
Theorem biasCorrection_updateVariance_raise self dataRef ccd s :
  biasCorrection isr self dataRef s = (Raise (NameError "sensorRef"), s) ∧
  updateVariance isr self ccd s = (Raise (NameError "ccdExp"), s).
Proof. split; reflexivity. Qed.


End IsrClaims.

(** * The statements on concrete inputs *)

Section LinearizeWitnesses.
Import ProportionalLinearizeTask Inputs Inputs.Linearize.

(** The claim C1 as stated fails on an exposure whose only amplifier
    covers the top row: every amplifier has type PROPORTIONAL and
    coefficients (2, 0, 3), the run returns, and the pixel of value 3 at
    row 1, column 0 is still 3, not 3*(1+2*3) = 21. *)
Lemma run_proportional_uncovered_pixel :
  Forall (fun a => getLinearityType a = "PROPORTIONAL" ∧
                   getLinearityCoeffs a = [q 2; f0; q 3])
         (getAmps (getDetector (theExposure topOnly))) ∧
  feqb (q 2) f0 = false ∧
  fltb f0 (q 3) = true ∧
  (run topOnly).1 = Ok tt ∧
  pixel (getImage (getMaskedImage (theExposure topOnly))) 1 0 = Some (q 3) ∧
  correct (q 2) (q 3) = q 21 ∧
  pixel (getImage (getMaskedImage (theExposure (run topOnly).2))) 1 0 = Some (q 3) ∧
  pixel (getImage (getMaskedImage (theExposure (run topOnly).2))) 1 0
  ≠ Some (correct (q 2) (q 3)).
Proof.
  split; [repeat constructor|].
  repeat split; try reflexivity.
  vm_compute. discriminate.
Qed.

(** The amended statement on the stacked exposure, whose top row lies
    in one box and whose bottom row lies in two: in the top row 2
    becomes 2*(1+2*2) = 10 and the pixel of value 1 (not above the
    threshold 3) keeps its mask; in the bottom row the pixel of value 4
    gets bit 7, SUSPECT. *)
Lemma run_proportional_correction_witness :
  let mi' := getMaskedImage (theExposure (run stacked).2) in
  (run stacked).1 = Ok tt ∧
  pixel (getImage mi') 0 1 = Some (q 10) ∧
  pixel (getMask mi') 0 0 = Some 0 ∧
  pixel (getMask mi') 1 1 = Some 128.
Proof.
  assert (Hne : getAmps (getDetector (theExposure stacked)) ≠ []) by discriminate.
  assert (Hall : Forall (fun a => getLinearityType a = "PROPORTIONAL" ∧
                                  ∃ c1, take 3 (getLinearityCoeffs a) = [q 2; c1; q 3] ∧
                                        feqb c1 f0 = true)
                        (getAmps (getDetector (theExposure stacked))))
    by repeat econstructor.
  assert (Hfit : Forall (fun a => fitsIn (mi_bbox (getMaskedImage (theExposure stacked)))
                                         (getBBox a) = true)
                        (getAmps (getDetector (theExposure stacked))))
    by repeat constructor.
  assert (Hsq : feqb (q 2) f0 = false) by reflexivity.
  assert (Ht : fltb f0 (q 3) = true) by reflexivity.
  destruct (run_proportional_correction stacked (q 2) (q 3) Hsq Ht Hne Hall Hfit)
    as (s' & Hrun & Hrest).
  simpl in Hrest. destruct Hrest as (_ & _ & _ & Hpix).
  rewrite Hrun. simpl.
  destruct (Hpix 0%nat 1%nat (q 2) eq_refl) as (H01 & _ & _).
  destruct (Hpix 0%nat 0%nat (q 1) eq_refl) as (H00 & _ & _).
  destruct (Hpix 1%nat 1%nat (q 4) eq_refl) as (_ & H11 & _).
  destruct (H01 eq_refl) as [I01 _].
  destruct (H00 eq_refl) as [_ M00].
  destruct (M00 0 eq_refl) as [_ M00le].
  assert (Hcov : (1 <= coverage (mi_bbox (getMaskedImage (theExposure stacked)))
                        (getAmps (getDetector (theExposure stacked))) 1 1)%nat)
    by (vm_compute; lia).
  split; [done|]. split; [exact I01|].
  split; [exact (M00le eq_refl)|]. exact (proj1 (H11 Hcov eq_refl 0 eq_refl)).
Defined.

(** The four outcomes of [doCorrect], by the type and the coefficients
    of the first amplifier. *)
Lemma doCorrect_first_amplifier_witness :
  doCorrect (detector "NONE" []) tt = (Ok false, tt) ∧
  doCorrect (detector "PROPORTIONAL" [q 2; q 0; q 3]) tt = (Ok true, tt) ∧
  doCorrect (detector "PROPORTIONAL" [q 2; q 0]) tt
  = (Raise (RuntimeError (NeedThreeCoeffs 2)), tt) ∧
  doCorrect (detector "POLYNOMIAL" [q 2; q 0; q 3]) tt
  = (Raise (RuntimeError (UnsupportedLinearityType "POLYNOMIAL" 7 "first")), tt).
Proof.
  pose proof (fun ty cs =>
                doCorrect_first_amplifier (detector ty cs) _ _ tt eq_refl) as Hthm.
  split; [|split; [|split]].
  - destruct (Hthm "NONE" []) as (Hnone & _). by apply Hnone.
  - destruct (Hthm "PROPORTIONAL" [q 2; q 0; q 3]) as (_ & Htrue & _).
    apply Htrue; [reflexivity|simpl; lia].
  - destruct (Hthm "PROPORTIONAL" [q 2; q 0]) as (_ & _ & Hshort & _).
    apply Hshort; [reflexivity|simpl; lia].
  - destruct (Hthm "POLYNOMIAL" [q 2; q 0; q 3]) as (_ & _ & _ & Hother & _).
    apply Hother; discriminate.
Defined.

(** The second amplifier has second coefficient 1: the run raises. *)
Lemma run_raises_on_nonzero_coeff1_witness :
  ∃ e, (run secondBad).1 = Raise e.
Proof.
  apply (run_raises_on_nonzero_coeff1 secondBad
           (amp "bottom" bottomRow "PROPORTIONAL" [q 2; q 1; q 3]) (q 1)).
  - reflexivity.
  - right. left.
  - reflexivity.
  - reflexivity.
Defined.

(** Two amplifiers of type NONE: the exposure is as before. *)
Lemma run_NONE_unchanged_witness :
  theExposure (run allNone).2 = theExposure allNone.
Proof. apply run_NONE_unchanged. repeat constructor. Defined.

(** Coefficients (0, 0, 0) on both amplifiers: one run and a second run
    leave the exposure as it is. *)
Lemma run_zero_coeffs_twice_witness :
  theExposure (run allZero).2 = theExposure allZero ∧
  theExposure (run (run allZero).2).2 = theExposure (run allZero).2.
Proof.
  apply run_zero_coeffs_twice.
  repeat (constructor; [split; [reflexivity|by eexists _, _, _, _]|]).
  constructor.
Defined.

(** Coefficients (0, 0, -1): the amplifier is skipped. *)
Lemma loopBody_negative_threshold_skips_witness :
  loopBody (getDetector (theExposure tiled)) negativeThreshold false tiled = (Ok false, tiled).
Proof.
  eapply (loopBody_negative_threshold_skips _ negativeThreshold false tiled); reflexivity.
Defined.

(** The run raises at the second amplifier; the top row, 1 and 2 before,
    is 3 and 10 afterwards. *)
Lemma run_error_keeps_earlier_corrections_witness :
  run secondBad
  = (Raise (RuntimeError (Coeff1MustBeZero (q 1) 7 "bottom")),
     withMaskedImage (ampStep (q 2) (q 3) topRow) secondBad) ∧
  getImage (getMaskedImage (theExposure secondBad)) = [[q 1; q 2]; [q 3; q 4]] ∧
  getImage (getMaskedImage (theExposure (run secondBad).2)) = [[q 3; q 10]; [q 3; q 4]].
Proof.
  split; [|split; reflexivity].
  apply (run_error_keeps_earlier_corrections secondBad
           [amp "top" topRow "PROPORTIONAL" [q 2; q 0; q 3]]
           (amp "bottom" bottomRow "PROPORTIONAL" [q 2; q 1; q 3]) []
           true _ (q 2) (q 1) (q 3) []); reflexivity.
Defined.

End LinearizeWitnesses.

Section IsrExamples.
Import IsrTask Inputs Inputs.Isr.

(** On an image with one unmasked NaN: NUMNANS is 1, the error is
    raised, no function of [isr] was called, the NaN is marked. *)
Example maskAndInterpNan_one_nan :
  let r := maskAndInterpNan idle task (env withNan) in
  r.1 = Raise (RuntimeError (UnmaskedNaNs 1)) ∧
  metadata r.2 !! "NUMNANS" = Some 1 ∧
  isrCalls r.2 = [] ∧
  getMaskPlaneDict (theExposure r.2) !! "UNMASKEDNAN" = Some 9%nat ∧
  getMask (theExposure r.2) = [[0; 512]; [0; 0]].
Proof. vm_compute. repeat split. Qed.

(** On an image without NaN: NUMNANS is 0 and the method returns. *)
Example maskAndInterpNan_no_nan :
  let r := maskAndInterpNan idle task (env ramp) in
  r.1 = Ok tt ∧ metadata r.2 !! "NUMNANS" = Some 0 ∧ isrCalls r.2 = [].
Proof. vm_compute. repeat split. Qed.

(** A data reference that holds a bias frame: the bias is not
    subtracted, the call raises with the exposure as it was. *)
Example biasCorrection_with_bias_frame :
  biasCorrection idle task biasRef (env ramp) = (Raise (NameError "sensorRef"), env ramp) ∧
  datasets biasRef !! "bias" = Some ramp.
Proof. split; reflexivity. Qed.

Example saturationDetection_on_ccd :
  saturationDetection idle task
    (ACcd {| ccd_getElectronicParams :=
               {| getGain := q 1; getReadNoise := q 1; getSaturationLevel := q 3 |};
             ccd_amps := []; getDefects := [] |})
    (env ramp)
  = (Raise (RuntimeError MustBeExecutedOnAmp), env ramp).
Proof. reflexivity. Qed.

End IsrExamples.

(** * Further properties of ProportionalLinearizeTask *)

Section AmpStepAnyCoefficients.
Import ProportionalLinearizeTask.
Context {F : Type} `{!Float F}.
Implicit Types (amp : Amp F) (detector : Detector F) (s : Env F) (mi : MaskedImage F).

Lemma shape_mapRegion {A} sel f (arr : list (list A)) :
  shape (mapRegion sel f arr) = shape arr.
Proof.
  unfold shape, mapRegion. apply list_eq. intros i.
  rewrite !list_lookup_fmap, list_lookup_imap.
  destruct (arr !! i) as [r|]; simpl; [|done]. by rewrite length_imap.
Qed.

Lemma FootprintSet_planes view th name mi :
  mi_bbox (FootprintSet view th name mi) = mi_bbox mi ∧
  getImage (FootprintSet view th name mi) = getImage mi ∧
  getVariance (FootprintSet view th name mi) = getVariance mi ∧
  shape (getMask (FootprintSet view th name mi)) = shape (getMask mi) ∧
  getMaskPlaneDict (FootprintSet view th name mi)
  = (addMaskPlane name (getMaskPlaneDict mi)).2.
Proof.
  unfold FootprintSet. destruct (addMaskPlane _ _) as [bit dict]. simpl.
  repeat split. apply shape_mapRegion.
Qed.

Lemma ampStep_image_any sq t view mi row col :
  pixel (getImage (ampStep sq t view mi)) row col
  = (fun v => if inRegion (mi_bbox mi) view row col && negb (feqb sq f0)
              then correct sq v else v) <$> pixel (getImage mi) row col.
Proof.
  unfold ampStep.
  set (mi1 := if fltb f0 t then _ else mi).
  assert (Hmi1 : mi_bbox mi1 = mi_bbox mi ∧ getImage mi1 = getImage mi).
  { subst mi1. destruct (fltb f0 t); [|done].
    by destruct (FootprintSet_planes view {| getValue := t |} "SUSPECT" mi) as (? & ? & _). }
  destruct Hmi1 as [Hb Hi].
  destruct (feqb sq f0); simpl.
  - rewrite andb_false_r, Hi. by destruct (pixel _ _ _).
  - rewrite andb_true_r. unfold updateImage, setImage. simpl.
    by rewrite pixel_mapRegion, Hb, Hi.
Qed.

Lemma ampStep_mask_any sq t view mi row col :
  pixel (getMask (ampStep sq t view mi)) row col
  = (fun m => if inRegion (mi_bbox mi) view row col && fltb f0 t
              then flag t (suspectBit (getMaskPlaneDict mi)) (pixel (getImage mi) row col) m
              else m) <$> pixel (getMask mi) row col.
Proof.
  destruct (fltb f0 t) eqn:Ht.
  - rewrite andb_true_r. by apply ampStep_mask.
  - rewrite andb_false_r. unfold ampStep. rewrite Ht.
    destruct (negb (feqb sq f0)); simpl; by destruct (pixel _ _ _).
Qed.

Lemma ampStep_suspectBit sq t view mi :
  suspectBit (getMaskPlaneDict (ampStep sq t view mi)) = suspectBit (getMaskPlaneDict mi).
Proof.
  destruct (fltb f0 t) eqn:Ht.
  - by rewrite ampStep_dict, suspectBit_again.
  - unfold ampStep. rewrite Ht. by destruct (negb (feqb sq f0)).
Qed.

Lemma ampStep_shape sq t view mi :
  shape (getImage (ampStep sq t view mi)) = shape (getImage mi) ∧
  shape (getMask (ampStep sq t view mi)) = shape (getMask mi).
Proof.
  unfold ampStep.
  set (mi1 := if fltb f0 t then _ else mi).
  assert (Hmi1 : getImage mi1 = getImage mi ∧ shape (getMask mi1) = shape (getMask mi)).
  { subst mi1. destruct (fltb f0 t); [|done].
    by destruct (FootprintSet_planes view {| getValue := t |} "SUSPECT" mi)
      as (_ & ? & _ & ? & _). }
  destruct Hmi1 as [Hi Hm].
  destruct (negb (feqb sq f0)); simpl; [|by rewrite Hi].
  by rewrite shape_mapRegion, Hi.
Qed.

Lemma ampStep_zero_square sq t view mi :
  feqb sq f0 = true -> getImage (ampStep sq t view mi) = getImage mi.
Proof.
  intros Hsq. unfold ampStep. rewrite Hsq. simpl.
  destruct (fltb f0 t); [|done].
  by destruct (FootprintSet_planes view {| getValue := t |} "SUSPECT" mi) as (_ & ? & _).
Qed.

Lemma ampStep_no_threshold sq t view mi :
  fltb f0 t = false ->
  getMask (ampStep sq t view mi) = getMask mi ∧
  getMaskPlaneDict (ampStep sq t view mi) = getMaskPlaneDict mi.
Proof.
  intros Ht. unfold ampStep. rewrite Ht. by destruct (negb (feqb sq f0)).
Qed.

End AmpStepAnyCoefficients.

Section LoopInvariants.
Import ProportionalLinearizeTask.
Context {F : Type} `{!Float F}.
Implicit Types (amp : Amp F) (detector : Detector F) (s : Env F) (mi : MaskedImage F).

(** One turn of the loop leaves the state as it was (it raised, or it
    skipped the amplifier), or it applies [ampStep] with the amplifier's
    coefficients and returns true. *)
Lemma loopBody_effect detector amp didCorrect s :
  ((loopBody detector amp didCorrect s).2 = s ∧
   ∀ d, (loopBody detector amp didCorrect s).1 = Ok d -> d = didCorrect ∧ active amp = false) ∨
  (∃ sq c1 t more,
     getLinearityCoeffs amp = sq :: c1 :: t :: more ∧ active amp = true ∧
     loopBody detector amp didCorrect s
     = (Ok true, withMaskedImage (ampStep sq t (getBBox amp)) s)).
Proof.
  destruct (getLinearityCoeffs amp) as [|sq [|c1 [|t more]]] eqn:Hc;
    try (left; rewrite loopBody_short by (rewrite Hc; simpl; lia); by split).
  destruct (feqb c1 f0) eqn:H1;
    [|left; erewrite loopBody_coeff1 by done; by split].
  destruct (fleb t f0 && feqb sq f0) eqn:Hact.
  - left. apply andb_prop in Hact as [Ht Hs].
    erewrite loopBody_skip by done. split; [done|]. intros d [= <-].
    split; [done|]. unfold active. by rewrite Hc, Ht, Hs.
  - destruct (fitsIn (mi_bbox (getMaskedImage (theExposure s))) (getBBox amp)) eqn:Hfit.
    + right. exists sq, c1, t, more. split; [done|]. split.
      * unfold active. by rewrite Hc, Hact.
      * by eapply loopBody_active.
    + left. erewrite loopBody_nofit by done. by split.
Qed.

(** A property of the masked image that every [ampStep] with an
    amplifier's own coefficients keeps, holds after the loop, however the
    loop ends. *)
Lemma forAmps_preserves (P : MaskedImage F -> Prop) detector amps :
  (∀ amp sq c1 t more mi,
     amp ∈ amps -> getLinearityCoeffs amp = sq :: c1 :: t :: more ->
     active amp = true -> P mi -> P (ampStep sq t (getBBox amp) mi)) ->
  ∀ didCorrect s,
    P (getMaskedImage (theExposure s)) ->
    P (getMaskedImage (theExposure (forAmps detector amps didCorrect s).2)).
Proof.
  induction amps as [|amp rest IH]; intros Hstep didCorrect s HP; [done|].
  rewrite forAmps_cons.
  assert (Hrest : ∀ amp' sq c1 t more mi,
             amp' ∈ rest -> getLinearityCoeffs amp' = sq :: c1 :: t :: more ->
             active amp' = true -> P mi -> P (ampStep sq t (getBBox amp') mi)).
  { intros amp' sq c1 t more mi Hin. apply Hstep. by right. }
  destruct (loopBody_effect detector amp didCorrect s)
    as [[Hs _]|(sq & c1 & t & more & Hc & Hact & ->)].
  - destruct (loopBody detector amp didCorrect s) as [[d|e] s']; simpl in Hs; subst s'.
    + by apply IH.
    + done.
  - apply IH; [done|]. simpl. eapply Hstep; [by left|done..].
Qed.

Lemma forAmps_detector_log detector amps didCorrect s :
  getDetector (theExposure (forAmps detector amps didCorrect s).2)
  = getDetector (theExposure s) ∧
  theLog (forAmps detector amps didCorrect s).2 = theLog s.
Proof.
  revert didCorrect s. induction amps as [|amp rest IH]; intros didCorrect s; [done|].
  rewrite forAmps_cons.
  destruct (loopBody_effect detector amp didCorrect s)
    as [[Hs _]|(sq & c1 & t & more & Hc & Hact & ->)].
  - destruct (loopBody detector amp didCorrect s) as [[d|e] s']; simpl in Hs; subst s'.
    + apply IH.
    + done.
  - destruct (IH true (withMaskedImage (ampStep sq t (getBBox amp)) s)) as [-> ->]. done.
Qed.

Lemma forAmps_didCorrect detector amps didCorrect s d :
  (forAmps detector amps didCorrect s).1 = Ok d ->
  d = didCorrect || existsb active amps.
Proof.
  revert didCorrect s. induction amps as [|amp rest IH]; intros didCorrect s.
  - simpl. intros [= <-]. by rewrite orb_false_r.
  - rewrite forAmps_cons. simpl existsb.
    destruct (loopBody_effect detector amp didCorrect s)
      as [[Hs Hd]|(sq & c1 & t & more & Hc & Hact & ->)].
    + destruct (loopBody detector amp didCorrect s) as [[d'|e] s']; simpl in *; [|done].
      destruct (Hd d' eq_refl) as [-> ->]. apply IH.
    + intros Hd. apply IH in Hd. rewrite Hact, Hd. by rewrite orb_true_r.
Qed.

Lemma run_preserves (P : MaskedImage F -> Prop) s :
  (∀ amp sq c1 t more mi,
     amp ∈ getAmps (getDetector (theExposure s)) ->
     getLinearityCoeffs amp = sq :: c1 :: t :: more ->
     active amp = true -> P mi -> P (ampStep sq t (getBBox amp) mi)) ->
  P (getMaskedImage (theExposure s)) ->
  P (getMaskedImage (theExposure (run s).2)).
Proof.
  intros Hstep HP. rewrite run_exposure.
  destruct (doCorrect _ s).1 as [[]|e]; try done.
  by apply forAmps_preserves.
Qed.

Lemma run_detector s :
  getDetector (theExposure (run s).2) = getDetector (theExposure s).
Proof.
  rewrite run_exposure.
  destruct (doCorrect _ s).1 as [[]|e]; try done.
  apply forAmps_detector_log.
Qed.

Lemma coverage_zero parent amps row col amp :
  coverage parent amps row col = 0%nat -> amp ∈ amps ->
  inRegion parent (getBBox amp) row col = false.
Proof.
  induction amps as [|a rest IH]; simpl; intros Hcov Hin; [by apply elem_of_nil in Hin|].
  apply elem_of_cons in Hin as [->|Hin].
  - destruct (inRegion parent (getBBox a) row col); [simpl in Hcov; lia|done].
  - apply IH; [lia|done].
Qed.

Lemma testbit_bitMask_other b k : k ≠ Z.of_nat b -> Z.testbit (bitMask b) k = false.
Proof.
  intros Hk. unfold bitMask.
  destruct (Z.lt_ge_cases k 0) as [Hneg|Hpos]; [by apply Z.testbit_neg_r|].
  rewrite Z.shiftl_spec by done.
  destruct (Z.lt_ge_cases (k - Z.of_nat b) 0) as [Hlt|Hge]; [by apply Z.testbit_neg_r|].
  destruct (k - Z.of_nat b) as [|p|p] eqn:E; [lia|done|lia].
Qed.

End LoopInvariants.

Section LinearizeFrame.
Import ProportionalLinearizeTask.
Context {F : Type} `{!Float F}.
Implicit Types (amp : Amp F) (detector : Detector F) (s : Env F) (mi : MaskedImage F).

(** X1: whatever the exposure and however the run ends, [run] leaves
    the detector, the bounding box and the variance plane of the
    exposure as they were, and the image and mask planes keep their
    dimensions. *)
Theorem run_frame s :
  let mi := getMaskedImage (theExposure s) in
  let mi' := getMaskedImage (theExposure (run s).2) in
  getDetector (theExposure (run s).2) = getDetector (theExposure s) ∧
  mi_bbox mi' = mi_bbox mi ∧
  getVariance mi' = getVariance mi ∧
  shape (getImage mi') = shape (getImage mi) ∧
  shape (getMask mi') = shape (getMask mi).
Proof.
  intros mi mi'. split; [apply run_detector|].
  apply (run_preserves
           (fun m => mi_bbox m = mi_bbox mi ∧ getVariance m = getVariance mi ∧
                     shape (getImage m) = shape (getImage mi) ∧
                     shape (getMask m) = shape (getMask mi))); [|done].
  intros amp sq c1 t more m _ _ _ (Hb & Hv & Hi & Hm).
  destruct (ampStep_shape sq t (getBBox amp) m) as [Hi' Hm'].
  rewrite ampStep_bbox, ampStep_variance, Hi', Hm'. done.
Qed.

(** X2: a pixel that lies in no amplifier's box keeps its image value
    and its mask value, whatever the coefficients of the amplifiers and
    however the run ends. *)
Theorem run_uncovered_pixel_unchanged s row col :
  let mi := getMaskedImage (theExposure s) in
  let mi' := getMaskedImage (theExposure (run s).2) in
  coverage (mi_bbox mi) (getAmps (getDetector (theExposure s))) row col = 0%nat ->
  pixel (getImage mi') row col = pixel (getImage mi) row col ∧
  pixel (getMask mi') row col = pixel (getMask mi) row col.
Proof.
  intros mi mi' Hcov.
  apply (run_preserves
           (fun m => mi_bbox m = mi_bbox mi ∧
                     (pixel (getImage m) row col = pixel (getImage mi) row col ∧
                      pixel (getMask m) row col = pixel (getMask mi) row col)));
    [|done].
  intros amp sq c1 t more m Hin _ _ (Hb & Hi & Hm).
  rewrite ampStep_bbox, ampStep_image_any, ampStep_mask_any, Hb.
  rewrite (coverage_zero _ _ _ _ _ Hcov Hin). simpl. rewrite Hi, Hm.
  split; [done|].
  split; [by destruct (pixel (getImage mi) row col)|by destruct (pixel (getMask mi) row col)].
Qed.

(** X3: the only thing [run] does to a mask pixel is to set the SUSPECT
    bit: the mask pixel afterwards is the one before, or the one before
    with that bit set; no bit is cleared and no other bit changes. *)
Theorem run_mask_sets_only_suspect s row col m :
  let mi := getMaskedImage (theExposure s) in
  let mi' := getMaskedImage (theExposure (run s).2) in
  let bit := suspectBit (getMaskPlaneDict mi) in
  pixel (getMask mi) row col = Some m ->
  ∃ m', pixel (getMask mi') row col = Some m' ∧
        (m' = m ∨ m' = Z.lor m (bitMask bit)) ∧
        (∀ k, Z.testbit m k = true -> Z.testbit m' k = true) ∧
        (∀ k, k ≠ Z.of_nat bit -> Z.testbit m' k = Z.testbit m k).
Proof.
  intros mi mi' bit Hm.
  assert (Hinv : suspectBit (getMaskPlaneDict mi') = bit ∧
                 (pixel (getMask mi') row col = Some m ∨
                  pixel (getMask mi') row col = Some (Z.lor m (bitMask bit)))).
  { apply (run_preserves
             (fun x => suspectBit (getMaskPlaneDict x) = bit ∧
                       (pixel (getMask x) row col = Some m ∨
                        pixel (getMask x) row col = Some (Z.lor m (bitMask bit)))));
      [|by split; [|left]].
    intros amp sq c1 t more x _ _ _ [Hbit Hpix].
    rewrite ampStep_suspectBit, ampStep_mask_any, Hbit. split; [done|].
    destruct (inRegion (mi_bbox x) (getBBox amp) row col && fltb f0 t);
      [|destruct Hpix as [-> | ->]; [by left|by right]].
    unfold flag.
    destruct (pixel (getImage x) row col) as [v|];
      [|destruct Hpix as [-> | ->]; [by left|by right]].
    destruct (fltb t v); [|destruct Hpix as [-> | ->]; [by left|by right]].
    right. destruct Hpix as [-> | ->]; simpl; [done|].
    by rewrite <- Z.lor_assoc, Z.lor_diag. }
  destruct Hinv as [_ [Hsame|Hset]].
  - exists m. split; [done|]. split; [by left|]. by split.
  - exists (Z.lor m (bitMask bit)). split; [done|]. split; [by right|]. split.
    + intros k Hk. by rewrite Z.lor_spec, Hk.
    + intros k Hk. rewrite Z.lor_spec, (testbit_bitMask_other _ _ Hk). apply orb_false_r.
Qed.

(** X4: when the square coefficient of every amplifier is zero, [run]
    leaves the image plane as it was, whatever the thresholds. *)
Theorem run_zero_square_image_unchanged s :
  Forall (fun amp => ∀ sq rest, getLinearityCoeffs amp = sq :: rest -> feqb sq f0 = true)
         (getAmps (getDetector (theExposure s))) ->
  getImage (getMaskedImage (theExposure (run s).2))
  = getImage (getMaskedImage (theExposure s)).
Proof.
  intros Hall.
  apply (run_preserves (fun m => getImage m = getImage (getMaskedImage (theExposure s))));
    [|done].
  intros amp sq c1 t more m Hin Hc _ Hm.
  rewrite Forall_forall in Hall.
  rewrite ampStep_zero_square; [done|]. by eapply Hall.
Qed.

(** X5: when no amplifier has a positive threshold, [run] leaves the
    mask plane and its plane dictionary as they were, whatever the
    square coefficients. *)
Theorem run_no_threshold_mask_unchanged s :
  Forall (fun amp => ∀ sq c1 t more,
            getLinearityCoeffs amp = sq :: c1 :: t :: more -> fltb f0 t = false)
         (getAmps (getDetector (theExposure s))) ->
  getMask (getMaskedImage (theExposure (run s).2))
  = getMask (getMaskedImage (theExposure s)) ∧
  getMaskPlaneDict (getMaskedImage (theExposure (run s).2))
  = getMaskPlaneDict (getMaskedImage (theExposure s)).
Proof.
  intros Hall.
  apply (run_preserves
           (fun m => getMask m = getMask (getMaskedImage (theExposure s)) ∧
                     getMaskPlaneDict m = getMaskPlaneDict (getMaskedImage (theExposure s))));
    [|done].
  intros amp sq c1 t more m Hin Hc _ [Hm Hd].
  rewrite Forall_forall in Hall.
  destruct (ampStep_no_threshold sq t (getBBox amp) m) as [-> ->]; [|done].
  by eapply Hall.
Qed.

(** The records that lines 59-100 write.  None when they raise.  When
    they return, the debug record when correction is not wanted, and
    otherwise the one info record exactly when some amplifier was not
    skipped by the test of line 85. *)
Lemma run_body_log s :
  let detector := getDetector (theExposure s) in
  match run s with
  | (Raise _, s') => theLog s' = theLog s
  | (Ok _, s') =>
      theLog s'
      = theLog s ++
        match (doCorrect detector s).1 with
        | Ok false => [LogDebugNotWanted (getId detector)]
        | _ => if existsb active (getAmps detector)
               then [LogInfoApplied (getId detector)] else []
        end
  end.
Proof.
  intros detector. unfold run. unfold_monad. simpl. fold detector.
  rewrite (doCorrect_pure detector s).
  destruct (doCorrect detector s).1 as [[]|e]; simpl; [|done|done].
  pose proof (forAmps_detector_log detector (getAmps detector) false s) as [_ Hlog].
  pose proof (forAmps_didCorrect detector (getAmps detector) false s) as Hd.
  destruct (forAmps detector (getAmps detector) false s) as [[d|e] s']; simpl in *; [|done].
  rewrite (Hd d eq_refl). simpl.
  destruct (existsb active (getAmps detector)); simpl; [by rewrite Hlog|].
  by rewrite Hlog, app_nil_r.
Qed.

End LinearizeFrame.

Section LinearizeCoefficients.
Import ProportionalLinearizeTask.
Context {F : Type} `{!Float F}.
Implicit Types (amp : Amp F) (detector : Detector F) (s : Env F) (mi : MaskedImage F).

Lemma take3_length_lt (l : list F) :
  (length (take 3 l) <? 3)%nat = (length l <? 3)%nat ∧
  ((length l < 3)%nat -> take 3 l = l).
Proof. destruct l as [|a [|b [|c l]]]; simpl; split; try done; lia. Qed.

Lemma doCorrect_firstThree {S} detector (s : S) :
  doCorrect {| getId := getId detector; getAmps := firstThree <$> getAmps detector |} s
  = doCorrect detector s.
Proof.
  unfold doCorrect. simpl.
  destruct (getAmps detector) as [|amp rest]; [done|]. simpl.
  destruct (String.eqb (getLinearityType amp) "NONE"); [done|].
  destruct (String.eqb (getLinearityType amp) "PROPORTIONAL"); [|done].
  destruct (take3_length_lt (getLinearityCoeffs amp)) as [-> Hshort].
  destruct (Nat.ltb_spec (length (getLinearityCoeffs amp)) 3); [|done].
  by rewrite Hshort.
Qed.

Lemma loopBody_firstThree detector detector' amp didCorrect s :
  getId detector' = getId detector ->
  loopBody detector' (firstThree amp) didCorrect (firstThreeOnly s)
  = let '(r, s') := loopBody detector amp didCorrect s in (r, firstThreeOnly s').
Proof.
  intros Hid. unfold loopBody. simpl.
  rewrite take_take, Nat.min_id, Hid.
  destruct (take 3 (getLinearityCoeffs amp)) as [|sq [|c1 [|t [|x more]]]]; try done.
  unfold_monad. simpl.
  destruct (feqb c1 f0); simpl; [|done].
  destruct (fleb t f0 && feqb sq f0); simpl; [done|].
  unfold subMaskedImage.
  destruct (fitsIn _ _); unfold_monad; [|done].
  by destruct (fltb f0 t), (feqb sq f0).
Qed.

Lemma forAmps_firstThree detector detector' amps didCorrect s :
  getId detector' = getId detector ->
  forAmps detector' (firstThree <$> amps) didCorrect (firstThreeOnly s)
  = let '(r, s') := forAmps detector amps didCorrect s in (r, firstThreeOnly s').
Proof.
  intros Hid. revert didCorrect s.
  induction amps as [|amp rest IH]; intros didCorrect s; [done|].
  rewrite fmap_cons, !forAmps_cons, (loopBody_firstThree detector) by done.
  destruct (loopBody detector amp didCorrect s) as [[d|e] s']; [apply IH|done].
Qed.

(** X7: coefficients beyond the third are ignored: cutting every
    amplifier's coefficients to the first three changes neither the
    outcome of [run], nor the masked image, nor the log. *)
Theorem run_ignores_further_coefficients s :
  run (firstThreeOnly s) = let '(r, s') := run s in (r, firstThreeOnly s').
Proof.
  unfold run. unfold_monad. simpl.
  rewrite (doCorrect_firstThree (getDetector (theExposure s))).
  rewrite (doCorrect_pure _ (firstThreeOnly s)), (doCorrect_pure _ s).
  destruct (doCorrect (getDetector (theExposure s)) (firstThreeOnly s)).1 as [w|e] eqn:Hw.
  - assert ((doCorrect (getDetector (theExposure s)) s).1 = Ok w) as ->.
    { revert Hw. unfold doCorrect. unfold_monad.
      destruct (getAmps _); [done|]. by repeat case_match. }
    destruct w; simpl; [|done].
    rewrite (forAmps_firstThree (getDetector (theExposure s))) by done.
    by destruct (forAmps _ _ _ _) as [[[]|e] s'].
  - assert ((doCorrect (getDetector (theExposure s)) s).1 = Raise e) as ->; [|done].
    revert Hw. unfold doCorrect. unfold_monad.
    destruct (getAmps _); [done|]. by repeat case_match.
Qed.

(** X8: [doCorrect] counts the coefficients of the first amplifier
    only.  When a later amplifier has fewer than three, [run] raises
    ValueError at that amplifier, and the state is the one the loop had
    reached. *)
Theorem run_short_coefficients_later_amplifier s before short after didCorrect s1 :
  (doCorrect (getDetector (theExposure s)) s).1 = Ok true ->
  getAmps (getDetector (theExposure s)) = before ++ short :: after ->
  forAmps (getDetector (theExposure s)) before false s = (Ok didCorrect, s1) ->
  (length (getLinearityCoeffs short) < 3)%nat ->
  run s = (Raise ValueError, s1).
Proof.
  intros Hdo Hamps Hbefore Hlen.
  rewrite (run_result s Hdo), Hamps, forAmps_app, Hbefore, forAmps_cons.
  by rewrite loopBody_short.
Qed.

Lemma ampSteps_image_iter sq t amps : ∀ mi row col,
  feqb sq f0 = false ->
  pixel (getImage (ampSteps sq t amps mi)) row col
  = Nat.iter (coverage (mi_bbox mi) amps row col) (correct sq)
      <$> pixel (getImage mi) row col.
Proof.
  induction amps as [|amp rest IH]; intros mi row col Hsq.
  - simpl. by destruct (pixel _ _ _).
  - change (ampSteps sq t (amp :: rest) mi)
      with (ampSteps sq t rest (ampStep sq t (getBBox amp) mi)).
    rewrite IH, ampStep_bbox, ampStep_image_any, Hsq by done.
    simpl coverage. rewrite andb_true_r.
    destruct (pixel (getImage mi) row col) as [v|]; [|done]. simpl. f_equal.
    destruct (inRegion (mi_bbox mi) (getBBox amp) row col); [|done].
    symmetry. apply Nat.iter_succ_r.
Qed.

(** X9: amplifiers whose boxes overlap correct the shared pixels once
    each.  With coefficients (s, 0, t), s non-zero, on every amplifier
    and every box inside the image, a pixel that lies in n boxes ends as
    the n-fold correction of its value. *)
Theorem run_overlap_corrects_repeatedly s sq t :
  let mi := getMaskedImage (theExposure s) in
  let amps := getAmps (getDetector (theExposure s)) in
  feqb sq f0 = false ->
  amps ≠ [] ->
  Forall (fun amp => getLinearityType amp = "PROPORTIONAL" ∧
                     take 3 (getLinearityCoeffs amp) = [sq; f0; t]) amps ->
  Forall (fun amp => fitsIn (mi_bbox mi) (getBBox amp) = true) amps ->
  (run s).1 = Ok tt ∧
  ∀ row col,
    pixel (getImage (getMaskedImage (theExposure (run s).2))) row col
    = Nat.iter (coverage (mi_bbox mi) amps row col) (correct sq)
        <$> pixel (getImage mi) row col.
Proof.
  intros mi amps Hsq Hne Hall Hfit.
  assert (Hco : Forall (fun amp => ∃ more, getLinearityCoeffs amp = sq :: f0 :: t :: more) amps).
  { eapply Forall_impl; [exact Hall|]. intros amp [_ Htk]. by apply take3_inv. }
  assert (Hdo : (doCorrect (getDetector (theExposure s)) s).1 = Ok true).
  { unfold doCorrect. fold amps. destruct Hall as [|amp rest [Hty Htk] _]; [done|].
    rewrite Hty. simpl. apply take3_inv in Htk as [more ->]. done. }
  rewrite (run_result s Hdo). fold amps.
  rewrite (forAmps_uniform sq t Hsq _ _ _ _ Hco Hfit).
  split; [by destruct amps|].
  intros row col. rewrite <- (ampSteps_image_iter sq t amps mi row col Hsq).
  by destruct amps.
Qed.

End LinearizeCoefficients.

(** * Planes with the same pixels *)

Section PlaneExtensionality.
Import ProportionalLinearizeTask.

Lemma pixel_Some_shape {A} (arr : list (list A)) row col v :
  pixel arr row col = Some v ->
  ∃ n, shape arr !! row = Some n ∧ (col < n)%nat.
Proof.
  unfold pixel, shape. rewrite list_lookup_fmap.
  destruct (arr !! row) as [r|]; simpl; [|done].
  intros Hv. exists (length r). split; [done|]. by eapply lookup_lt_Some.
Qed.

Lemma plane_ext {A} (a b : list (list A)) :
  shape a = shape b ->
  (∀ row col v, pixel a row col = Some v -> pixel b row col = Some v) ->
  a = b.
Proof.
  intros Hshape Hpix. apply list_eq. intros row.
  assert (Hrow : shape a !! row = shape b !! row) by by rewrite Hshape.
  unfold shape in Hrow. rewrite !list_lookup_fmap in Hrow.
  specialize (Hpix row). unfold pixel in Hpix.
  destruct (a !! row) as [ra|], (b !! row) as [rb|]; simpl in *; try done.
  injection Hrow as Hlen. f_equal.
  apply list_eq_same_length with (length ra); [done|done|].
  intros col x y Hlt Hx Hy. apply Hpix in Hx. congruence.
Qed.

Lemma pixel_fmap {A B} (g : A -> B) (arr : list (list A)) row col :
  pixel (map (map g) arr) row col = g <$> pixel arr row col.
Proof.
  unfold pixel. rewrite list_lookup_fmap.
  destruct (arr !! row) as [r|]; simpl; [|done]. apply list_lookup_fmap.
Qed.

Lemma shape_fmap {A B} (g : A -> B) (arr : list (list A)) :
  shape (map (map g) arr) = shape arr.
Proof.
  unfold shape. rewrite <- list_fmap_compose. apply list_fmap_ext.
  intros _ r _. simpl. apply length_fmap.
Qed.

End PlaneExtensionality.

(** * Flagging alone is idempotent *)

Section ThresholdOnly.
Import ProportionalLinearizeTask.
Context {F : Type} `{!Float F}.
Implicit Types (amp : Amp F) (detector : Detector F) (s : Env F) (mi : MaskedImage F).

Lemma maskedImage_eq mi1 mi2 :
  mi_bbox mi1 = mi_bbox mi2 -> getImage mi1 = getImage mi2 ->
  getMask mi1 = getMask mi2 -> getMaskPlaneDict mi1 = getMaskPlaneDict mi2 ->
  getVariance mi1 = getVariance mi2 -> mi1 = mi2.
Proof. destruct mi1, mi2. simpl. by intros -> -> -> -> ->. Qed.

Lemma plane_ext_option {A} (a b : list (list A)) :
  shape a = shape b ->
  (∀ row col, pixel a row col = pixel b row col) ->
  a = b.
Proof.
  intros Hshape Hpix. apply plane_ext; [done|].
  intros row col v Hv. by rewrite <- Hpix.
Qed.

(** With a zero square coefficient a step only flags. *)
Lemma ampStep_flag_only sq t view mi :
  feqb sq f0 = true ->
  mi_bbox (ampStep sq t view mi) = mi_bbox mi ∧
  getImage (ampStep sq t view mi) = getImage mi ∧
  getVariance (ampStep sq t view mi) = getVariance mi ∧
  getMaskPlaneDict (ampStep sq t view mi)
  = (if fltb f0 t then (addMaskPlane "SUSPECT" (getMaskPlaneDict mi)).2
     else getMaskPlaneDict mi).
Proof.
  intros Hsq. split; [apply ampStep_bbox|]. split; [by apply ampStep_zero_square|].
  split; [apply ampStep_variance|].
  destruct (fltb f0 t) eqn:Ht; [by apply ampStep_dict|].
  by destruct (ampStep_no_threshold sq t view mi Ht).
Qed.

Lemma addMaskPlane_twice name d :
  (addMaskPlane name (addMaskPlane name d).2).2 = (addMaskPlane name d).2.
Proof. by rewrite addMaskPlane_again. Qed.

Lemma flag_flag t1 t2 bit ov m :
  flag t1 bit ov (flag t2 bit ov m) = flag t2 bit ov (flag t1 bit ov m).
Proof.
  unfold flag. destruct ov as [v|]; [|done].
  destruct (fltb t1 v), (fltb t2 v); try done.
Qed.

Lemma flag_idem t bit ov m : flag t bit ov (flag t bit ov m) = flag t bit ov m.
Proof.
  unfold flag. destruct ov as [v|]; [|done].
  destruct (fltb t v); [|done]. by rewrite <- Z.lor_assoc, Z.lor_diag.
Qed.

Lemma ampStep_commute sq1 t1 view1 sq2 t2 view2 mi :
  feqb sq1 f0 = true -> feqb sq2 f0 = true ->
  ampStep sq1 t1 view1 (ampStep sq2 t2 view2 mi)
  = ampStep sq2 t2 view2 (ampStep sq1 t1 view1 mi).
Proof.
  intros H1 H2.
  destruct (ampStep_flag_only sq1 t1 view1 mi H1) as (Hb1 & Hi1 & Hv1 & Hd1).
  destruct (ampStep_flag_only sq2 t2 view2 mi H2) as (Hb2 & Hi2 & Hv2 & Hd2).
  destruct (ampStep_flag_only sq1 t1 view1 (ampStep sq2 t2 view2 mi) H1)
    as (Hb12 & Hi12 & Hv12 & Hd12).
  destruct (ampStep_flag_only sq2 t2 view2 (ampStep sq1 t1 view1 mi) H2)
    as (Hb21 & Hi21 & Hv21 & Hd21).
  apply maskedImage_eq.
  - congruence.
  - congruence.
  - apply plane_ext_option.
    + destruct (ampStep_shape sq1 t1 view1 (ampStep sq2 t2 view2 mi)) as [_ ->].
      destruct (ampStep_shape sq2 t2 view2 (ampStep sq1 t1 view1 mi)) as [_ ->].
      destruct (ampStep_shape sq1 t1 view1 mi) as [_ ->].
      by destruct (ampStep_shape sq2 t2 view2 mi) as [_ ->].
    + intros row col. rewrite !ampStep_mask_any, !ampStep_suspectBit.
      rewrite Hb1, Hb2, Hi1, Hi2.
      destruct (pixel (getMask mi) row col) as [m|]; [|done]. simpl. f_equal.
      destruct (inRegion (mi_bbox mi) view1 row col && fltb f0 t1),
        (inRegion (mi_bbox mi) view2 row col && fltb f0 t2); try done.
      apply flag_flag.
  - rewrite Hd12, Hd21, Hd1, Hd2.
    destruct (fltb f0 t1), (fltb f0 t2); done.
  - congruence.
Qed.

Lemma ampStep_idem sq t view mi :
  feqb sq f0 = true ->
  ampStep sq t view (ampStep sq t view mi) = ampStep sq t view mi.
Proof.
  intros Hsq.
  destruct (ampStep_flag_only sq t view mi Hsq) as (Hb1 & Hi1 & Hv1 & Hd1).
  destruct (ampStep_flag_only sq t view (ampStep sq t view mi) Hsq)
    as (Hb2 & Hi2 & Hv2 & Hd2).
  apply maskedImage_eq.
  - congruence.
  - congruence.
  - apply plane_ext_option.
    + by destruct (ampStep_shape sq t view (ampStep sq t view mi)) as [_ ->].
    + intros row col. rewrite !ampStep_mask_any, !ampStep_suspectBit, Hb1, Hi1.
      destruct (pixel (getMask mi) row col) as [m|]; [|done]. simpl. f_equal.
      destruct (inRegion (mi_bbox mi) view row col && fltb f0 t); [|done].
      apply flag_idem.
  - rewrite Hd2, Hd1. destruct (fltb f0 t); [|done]. by rewrite addMaskPlane_twice.
  - congruence.
Qed.

(** What one turn of the loop does with an amplifier whose square
    coefficient is zero depends on the state through the box of the
    image only. *)
Lemma loopBody_zero_square detector amp s :
  (∀ sq rest, getLinearityCoeffs amp = sq :: rest -> feqb sq f0 = true) ->
  ∃ (g : MaskedImage F -> MaskedImage F) (outcome : bool -> res F bool),
    (∀ didCorrect s',
       mi_bbox (getMaskedImage (theExposure s')) = mi_bbox (getMaskedImage (theExposure s)) ->
       loopBody detector amp didCorrect s'
       = (outcome didCorrect,
          if raised (outcome didCorrect) then s' else withMaskedImage g s')) ∧
    (∀ d d', raised (outcome d) = raised (outcome d')) ∧
    (g = (fun mi => mi) ∨
     ∃ sq t, feqb sq f0 = true ∧ g = ampStep sq t (getBBox amp)).
Proof.
  intros Hzero.
  destruct (getLinearityCoeffs amp) as [|sq [|c1 [|t more]]] eqn:Hc.
  1-3: exists (fun mi => mi), (fun _ => Raise ValueError);
       split; [|split; [done|by left]]; intros d s' _;
       by rewrite loopBody_short by (rewrite Hc; simpl; lia).
  destruct (feqb c1 f0) eqn:H1.
  2:{ exists (fun mi => mi),
        (fun _ => Raise (RuntimeError (Coeff1MustBeZero c1 (getId detector) (getName amp)))).
      split; [|split; [done|by left]]. intros d s' _. by erewrite loopBody_coeff1. }
  destruct (fleb t f0 && feqb sq f0) eqn:Hact.
  { exists (fun mi => mi), (fun d => Ok d).
    split; [|split; [done|by left]]. intros d s' _.
    apply andb_prop in Hact as [? ?]. erewrite loopBody_skip by done.
    by destruct s' as [[? ?] ?]. }
  destruct (fitsIn (mi_bbox (getMaskedImage (theExposure s))) (getBBox amp)) eqn:Hfit.
  - exists (ampStep sq t (getBBox amp)), (fun _ => Ok true).
    split; [|split; [done|]].
    + intros d s' Hb. rewrite <- Hb in Hfit. by erewrite loopBody_active.
    + right. exists sq, t. split; [by eapply Hzero|done].
  - exists (fun mi => mi), (fun _ => Raise LengthError).
    split; [|split; [done|by left]]. intros d s' Hb.
    rewrite <- Hb in Hfit. by erewrite loopBody_nofit.
Qed.

(** A second pass of the loop over a state that the first pass left
    changes nothing.  [fixed] collects the steps already taken: the
    state is a fixed point of each. *)
Local Opaque forAmps.

Lemma forAmps_second_pass detector amps :
  Forall (fun amp => ∀ sq rest, getLinearityCoeffs amp = sq :: rest -> feqb sq f0 = true)
         amps ->
  ∀ (fixed : list (MaskedImage F -> MaskedImage F)) didCorrect s,
    Forall (fun g => g = (fun mi => mi) ∨
                     ∃ sq t view, feqb sq f0 = true ∧ g = ampStep sq t view) fixed ->
    Forall (fun g => g (getMaskedImage (theExposure s)) = getMaskedImage (theExposure s))
           fixed ->
    let s1 := (forAmps detector amps didCorrect s).2 in
    mi_bbox (getMaskedImage (theExposure s1)) = mi_bbox (getMaskedImage (theExposure s)) ∧
    Forall (fun g => g (getMaskedImage (theExposure s1)) = getMaskedImage (theExposure s1))
           fixed ∧
    ∀ didCorrect', (forAmps detector amps didCorrect' s1).2 = s1.
Proof.
  induction 1 as [|amp rest Hamp _ IH]; intros fixed didCorrect s Hkind Hfix; [done|].
  destruct (loopBody_zero_square detector amp s Hamp) as (g & outcome & Hbody & Hraise & Hg).
  cbv zeta. rewrite forAmps_cons, (Hbody didCorrect s eq_refl).
  destruct (outcome didCorrect) as [d|e] eqn:Hout; simpl.
  2:{ split; [done|]. split; [done|]. intros d'.
      rewrite forAmps_cons, (Hbody d' s eq_refl).
      specialize (Hraise d' didCorrect). rewrite Hout in Hraise.
      by destruct (outcome d'). }
  assert (Hgkind : g = (fun mi => mi) ∨
                   ∃ sq t view, feqb sq f0 = true ∧ g = ampStep sq t view).
  { destruct Hg as [->|(sq & t & Hsq & ->)]; [by left|right; by eexists _, _, _]. }
  assert (Hgb : ∀ mi, mi_bbox (g mi) = mi_bbox mi).
  { intros mi. destruct Hg as [->|(sq & t & Hsq & ->)]; [done|apply ampStep_bbox]. }
  assert (Hgg : ∀ mi, g (g mi) = g mi).
  { intros mi. destruct Hg as [->|(sq & t & Hsq & ->)]; [done|by apply ampStep_idem]. }
  assert (Hcomm : ∀ h mi, (h = (fun mi => mi) ∨
                           ∃ sq t view, feqb sq f0 = true ∧ h = ampStep sq t view) ->
                          h (g mi) = g (h mi)).
  { intros h mi [->|(sq' & t' & view' & Hsq' & ->)]; [done|].
    destruct Hg as [->|(sq & t & Hsq & ->)]; [done|]. by apply ampStep_commute. }
  destruct (IH (g :: fixed) d (withMaskedImage g s)) as (Hb & Hfix1 & Hsecond).
  { by constructor. }
  { constructor; [apply Hgg|]. simpl.
    rewrite Forall_forall in Hfix, Hkind |- *. intros h Hh.
    rewrite (Hcomm h _ (Hkind h Hh)). by rewrite (Hfix h Hh). }
  simpl in Hb. rewrite Hgb in Hb.
  apply Forall_cons in Hfix1 as [Hg1 Hfix1].
  split; [done|]. split; [done|]. intros d'.
  rewrite forAmps_cons, (Hbody d' _ Hb).
  specialize (Hraise d' didCorrect). rewrite Hout in Hraise.
  destruct (outcome d') as [d''|]; [|done]. simpl.
  assert (Hs1 : withMaskedImage g (forAmps detector rest d (withMaskedImage g s)).2
                = (forAmps detector rest d (withMaskedImage g s)).2).
  { destruct (forAmps detector rest d (withMaskedImage g s)).2 as [[det mi] lg].
    unfold withMaskedImage. simpl in *. by rewrite Hg1. }
  rewrite Hs1. apply Hsecond.
Qed.

Local Transparent forAmps.

Lemma loopBody_setLog detector amp didCorrect lg s :
  loopBody detector amp didCorrect (setLog lg s)
  = let '(r, s') := loopBody detector amp didCorrect s in (r, setLog lg s').
Proof.
  unfold loopBody.
  destruct (take 3 (getLinearityCoeffs amp)) as [|sq [|c1 [|t [|x more]]]]; try done.
  unfold_monad. simpl.
  destruct (feqb c1 f0); simpl; [|done].
  destruct (fleb t f0 && feqb sq f0); simpl; [done|].
  unfold subMaskedImage.
  destruct (fitsIn _ _); unfold_monad; [|done].
  by destruct (fltb f0 t), (feqb sq f0).
Qed.

Lemma forAmps_setLog detector amps didCorrect lg s :
  theExposure (forAmps detector amps didCorrect (setLog lg s)).2
  = theExposure (forAmps detector amps didCorrect s).2.
Proof.
  revert didCorrect s. induction amps as [|amp rest IH]; intros didCorrect s; [done|].
  rewrite !forAmps_cons, loopBody_setLog.
  destruct (loopBody detector amp didCorrect s) as [[d|e] s']; [apply IH|done].
Qed.

(** X14: flagging alone is idempotent.  When every square coefficient
    is zero, a second [run] leaves the exposure exactly as the first run
    left it, whatever the thresholds, however the boxes overlap and
    however the runs end. *)
Theorem run_threshold_only_idempotent s :
  Forall (fun amp => ∀ sq rest, getLinearityCoeffs amp = sq :: rest -> feqb sq f0 = true)
         (getAmps (getDetector (theExposure s))) ->
  theExposure (run (run s).2).2 = theExposure (run s).2.
Proof.
  intros Hzero.
  set (detector := getDetector (theExposure s)).
  assert (Hdet : getDetector (theExposure (run s).2) = detector) by apply run_detector.
  rewrite (run_exposure (run s).2), Hdet.
  assert (Hdo : ∀ s', (doCorrect detector s').1 = (doCorrect detector s).1).
  { intros s'. unfold doCorrect. unfold_monad.
    destruct (getAmps detector); [done|]. by repeat case_match. }
  rewrite Hdo.
  destruct (doCorrect detector s).1 as [[]|e] eqn:Hw; [|done|done].
  destruct (forAmps_second_pass detector (getAmps detector) Hzero [] false s)
    as (_ & _ & Hsecond); [done|done|].
  assert (Hrun : ∃ lg, (run s).2
                       = {| theExposure :=
                              theExposure (forAmps detector (getAmps detector) false s).2;
                            theLog := lg |}).
  { rewrite (run_result s Hw). fold detector.
    destruct (forAmps detector (getAmps detector) false s) as [[[]|e] [ex lg]];
      simpl; eauto. }
  destruct Hrun as [lg ->]. simpl.
  specialize (Hsecond false).
  set (s1 := (forAmps detector (getAmps detector) false s).2) in *.
  change {| theExposure := theExposure s1; theLog := lg |} with (setLog lg s1).
  rewrite forAmps_setLog, Hsecond. done.
Qed.

End ThresholdOnly.

(** * The method under its decorator *)

Section LinearizeDecorator.
Import ProportionalLinearizeTask.
Context {F : Type} `{!Float F}.
Implicit Types (amp : Amp F) (detector : Detector F) (s : Env F) (mi : MaskedImage F).

(** The loop does not read the log: with another log it does the same
    and leaves that log. *)
Lemma forAmps_setLog_result detector amps didCorrect lg s :
  forAmps detector amps didCorrect (setLog lg s)
  = let '(r, s') := forAmps detector amps didCorrect s in (r, setLog lg s').
Proof.
  revert didCorrect s. induction amps as [|amp rest IH]; intros didCorrect s; [done|].
  rewrite !forAmps_cons, loopBody_setLog.
  destruct (loopBody detector amp didCorrect s) as [[d|e] s']; [apply IH|done].
Qed.

(** Nor does [run]: its outcome and the exposure it leaves are the same
    whatever the log was. *)
Lemma run_setLog lg s :
  (run (setLog lg s)).1 = (run s).1 ∧
  theExposure (run (setLog lg s)).2 = theExposure (run s).2.
Proof.
  unfold run. unfold_monad. simpl.
  rewrite (doCorrect_pure _ (setLog lg s)), (doCorrect_pure _ s).
  assert (Hdo : (doCorrect (getDetector (theExposure s)) (setLog lg s)).1
                = (doCorrect (getDetector (theExposure s)) s).1).
  { unfold doCorrect. destruct (getAmps _); [done|]. unfold_monad. repeat case_match; done. }
  rewrite Hdo.
  destruct (doCorrect (getDetector (theExposure s)) s).1 as [[]|e]; simpl; try done.
  rewrite forAmps_setLog_result.
  destruct (forAmps _ _ _ s) as [[[]|e] s']; done.
Qed.

(** X6: the log of the decorated method.  The decorator records the
    start, the function of lines 59-100 runs, the decorator records the
    end, also when the function raised.  In between the function writes
    nothing when it raises; when it returns it writes the debug record
    if correction is not wanted, and otherwise the one info record
    exactly when some amplifier was not skipped by the test of line 85.
    The outcome and the exposure are those of the function alone. *)
Theorem run_log logInfo s :
  let detector := getDetector (theExposure s) in
  (timedRun logInfo s).1 = (run s).1 ∧
  theExposure (timedRun logInfo s).2 = theExposure (run s).2 ∧
  theLog (timedRun logInfo s).2
  = logInfo "runEnd"
      (logInfo "runStart" (theLog s) ++
       match (run s).1 with
       | Raise _ => []
       | Ok _ =>
           match (doCorrect detector s).1 with
           | Ok false => [LogDebugNotWanted (getId detector)]
           | _ => if existsb active (getAmps detector)
                  then [LogInfoApplied (getId detector)] else []
           end
       end).
Proof.
  intros detector.
  set (started := setLog (logInfo "runStart" (theLog s)) s).
  assert (Hrun : timedRun logInfo s
                 = ((run started).1,
                    setLog (logInfo "runEnd" (theLog (run started).2)) (run started).2)).
  { unfold timedRun, timeMethod. change ("run" +:+ "Start") with "runStart".
    change ("run" +:+ "End") with "runEnd". fold started. by destruct (run started). }
  destruct (run_setLog (logInfo "runStart" (theLog s)) s) as [Hres Hexp].
  fold started in Hres, Hexp.
  rewrite Hrun. simpl. split; [done|]. split; [done|]. f_equal.
  pose proof (run_body_log started) as Hlog. simpl in Hlog. fold detector in Hlog.
  assert (Hdo : (doCorrect detector started).1 = (doCorrect detector s).1).
  { unfold doCorrect. destruct (getAmps _); [done|]. unfold_monad. repeat case_match; done. }
  rewrite Hdo in Hlog. rewrite <- Hres.
  destruct (run started) as [[u|e] s']; simpl in *; [done|].
  by rewrite Hlog, app_nil_r.
Qed.

End LinearizeDecorator.

(** * The test fixture *)

Section Fixture.
Import ProportionalLinearizeTask TestProportionalLinearityTask.
Context {F : Type} `{!Float F}.
Implicit Types (amp : Amp F) (dw : Detector F) (s : Env F) (mi : MaskedImage F).

Lemma inRegion_decide W H x0 y0 w h row col :
  inRegion {| getMinX := 0; getMinY := 0; getWidth := W; getHeight := H |}
           {| getMinX := x0; getMinY := y0; getWidth := w; getHeight := h |} row col
  = bool_decide (x0 <= Z.of_nat col < x0 + w ∧ y0 <= Z.of_nat row < y0 + h).
Proof.
  unfold inRegion, contains. simpl.
  destruct (Z.leb_spec x0 (Z.of_nat col)), (Z.ltb_spec (Z.of_nat col) (x0 + w)),
    (Z.leb_spec y0 (Z.of_nat row)), (Z.ltb_spec (Z.of_nat row) (y0 + h));
    simpl; case_bool_decide; try done; lia.
Qed.

Lemma makeSimpleDetector_boxes (w h : Z) dw :
  length (getAmps dw) = 4%nat ->
  getBBox <$> getAmps (makeSimpleDetector (w, h) dw)
  = [ {| getMinX := 0; getMinY := 0; getWidth := w; getHeight := h |};
      {| getMinX := w; getMinY := 0; getWidth := w; getHeight := h |};
      {| getMinX := 0; getMinY := h; getWidth := w; getHeight := h |};
      {| getMinX := w; getMinY := h; getWidth := w; getHeight := h |} ].
Proof.
  intros Hlen.
  destruct (getAmps dw) as [|a0 [|a1 [|a2 [|a3 [|a4 l]]]]] eqn:Hamps; try done.
  unfold makeSimpleDetector. by rewrite Hamps.
Qed.

Lemma coverage_boxes parent (amps : list (Amp F)) row col :
  coverage parent amps row col
  = length (filter (fun b => inRegion parent b row col = true) (getBBox <$> amps)).
Proof.
  induction amps as [|a rest IH]; [done|]. simpl. rewrite filter_cons.
  destruct (inRegion parent (getBBox a) row col); case_decide; try done.
  simpl. by rewrite IH.
Qed.

Lemma simple_boxes_fit (w h : Z) (amps : list (Amp F)) :
  0 <= w -> 0 <= h ->
  getBBox <$> amps
  = [ {| getMinX := 0; getMinY := 0; getWidth := w; getHeight := h |};
      {| getMinX := w; getMinY := 0; getWidth := w; getHeight := h |};
      {| getMinX := 0; getMinY := h; getWidth := w; getHeight := h |};
      {| getMinX := w; getMinY := h; getWidth := w; getHeight := h |} ] ->
  Forall (fun amp => fitsIn (expBBox (w, h)) (getBBox amp) = true) amps.
Proof.
  intros Hw Hh Hb.
  apply (Forall_fmap getBBox (fun b => fitsIn (expBBox (w, h)) b = true)).
  rewrite Hb. unfold fitsIn.
  repeat (constructor;
          [simpl; repeat (apply andb_true_intro; split); apply Z.leb_le; lia|]).
  constructor.
Qed.

Lemma simple_boxes_cover (w h : Z) (amps : list (Amp F)) row col :
  getBBox <$> amps
  = [ {| getMinX := 0; getMinY := 0; getWidth := w; getHeight := h |};
      {| getMinX := w; getMinY := 0; getWidth := w; getHeight := h |};
      {| getMinX := 0; getMinY := h; getWidth := w; getHeight := h |};
      {| getMinX := w; getMinY := h; getWidth := w; getHeight := h |} ] ->
  Z.of_nat col < w * 2 -> Z.of_nat row < h * 2 ->
  coverage (expBBox (w, h)) amps row col = 1%nat.
Proof.
  intros Hb Hcol Hrow. rewrite coverage_boxes, Hb. unfold expBBox. simpl.
  rewrite !filter_cons, filter_nil, !inRegion_decide.
  repeat case_bool_decide; repeat case_decide; simpl; try done; lia.
Qed.

(** X10: the four boxes that [makeSimpleDetector] sets tile the box of
    the detector: each fits in it, and every pixel of it lies in exactly
    one of them. *)
Theorem makeSimpleDetector_tiles (w h : Z) dw :
  length (getAmps dw) = 4%nat ->
  0 <= w -> 0 <= h ->
  Forall (fun amp => fitsIn (expBBox (w, h)) (getBBox amp) = true)
         (getAmps (makeSimpleDetector (w, h) dw)) ∧
  ∀ row col,
    Z.of_nat col < w * 2 -> Z.of_nat row < h * 2 ->
    coverage (expBBox (w, h)) (getAmps (makeSimpleDetector (w, h) dw)) row col = 1%nat.
Proof.
  intros Hlen Hw Hh.
  pose proof (makeSimpleDetector_boxes w h dw Hlen) as Hb. split.
  - by apply simple_boxes_fit.
  - intros row col. by apply simple_boxes_cover.
Qed.

End Fixture.

Section BasicCorrection.
Import ProportionalLinearizeTask TestProportionalLinearityTask.
Context {F : Type} `{!Float F}.
Implicit Types (amp : Amp F) (dw : Detector F) (s : Env F) (mi : MaskedImage F).

Lemma ampSteps_shape sq t amps : ∀ mi,
  shape (getImage (ampSteps sq t amps mi)) = shape (getImage mi) ∧
  shape (getMask (ampSteps sq t amps mi)) = shape (getMask mi).
Proof.
  induction amps as [|amp rest IH]; intros mi; [done|].
  change (ampSteps sq t (amp :: rest) mi)
    with (ampSteps sq t rest (ampStep sq t (getBBox amp) mi)).
  destruct (IH (ampStep sq t (getBBox amp) mi)) as [-> ->]. apply ampStep_shape.
Qed.

Lemma pixel_Some_bounds {A} (arr : list (list A)) (W H : Z) row col v :
  Z.of_nat (length arr) = H ->
  Forall (fun r => Z.of_nat (length r) = W) arr ->
  pixel arr row col = Some v ->
  Z.of_nat col < W ∧ Z.of_nat row < H.
Proof.
  intros HH HW. unfold pixel.
  destruct (arr !! row) as [r|] eqn:Hr; simpl; [|done]. intros Hc.
  apply lookup_lt_Some in Hc. pose proof (lookup_lt_Some _ _ _ Hr) as Hrow.
  rewrite Forall_forall in HW.
  assert (Hin : r ∈ arr) by (apply list_elem_of_lookup; eauto).
  apply HW in Hin. lia.
Qed.

Lemma doCorrect_all_proportional {S} (detector : Detector F) (s : S) :
  getAmps detector ≠ [] ->
  Forall (fun amp => getLinearityType amp = "PROPORTIONAL" ∧
                     (3 <= length (getLinearityCoeffs amp))%nat) (getAmps detector) ->
  (doCorrect detector s).1 = Ok true.
Proof.
  intros Hne Hall. unfold doCorrect.
  destruct Hall as [|amp rest [Hty Hlen] _]; [done|]. rewrite Hty. simpl.
  by destruct (Nat.ltb_spec (length (getLinearityCoeffs amp)) 3); [lia|].
Qed.

(** X11: what [testBasicCorrection] asserts holds for every size of the
    amplifiers, every image and every pair of a non-zero square
    coefficient and a positive threshold: after the run the image is
    [imArr*(1 + squareCoeff*imArr)], the mask is SUSPECT where
    [imArr > suspectValue] and 0 elsewhere, and the variance is the
    plane it was. *)
Theorem basicCorrection_expected (w h : Z) dw planes (imArr : list (list F)) sq t :
  let s := basicCorrectionExposure (w, h) dw planes imArr sq t in
  let mi' := getMaskedImage (theExposure (run s).2) in
  length (getAmps dw) = 4%nat ->
  0 <= w -> 0 <= h ->
  feqb sq f0 = false ->
  fltb f0 t = true ->
  Z.of_nat (length imArr) = h * 2 ->
  Forall (fun r => Z.of_nat (length r) = w * 2) imArr ->
  (run s).1 = Ok tt ∧
  getImage mi' = map (map (correct sq)) imArr ∧
  getMask mi'
  = map (map (fun v => if fltb t v then bitMask (suspectBit planes) else 0)) imArr ∧
  getVariance mi' = imArr.
Proof.
  intros s mi' Hlen Hw Hh Hsq Ht Hrows Hcols.
  set (amps := getAmps (getDetector (theExposure s))).
  set (mi := getMaskedImage (theExposure s)).
  assert (Hb : getBBox <$> amps
               = [ {| getMinX := 0; getMinY := 0; getWidth := w; getHeight := h |};
                   {| getMinX := w; getMinY := 0; getWidth := w; getHeight := h |};
                   {| getMinX := 0; getMinY := h; getWidth := w; getHeight := h |};
                   {| getMinX := w; getMinY := h; getWidth := w; getHeight := h |} ]).
  { rewrite <- (makeSimpleDetector_boxes w h dw Hlen). unfold amps. simpl.
    rewrite <- list_fmap_compose. by apply list_fmap_ext. }
  assert (Hco : Forall (fun amp => ∃ more, getLinearityCoeffs amp = sq :: f0 :: t :: more) amps).
  { unfold amps. simpl. apply Forall_fmap, Forall_true. intros amp. by exists []. }
  assert (Hfit : Forall (fun amp => fitsIn (mi_bbox mi) (getBBox amp) = true) amps)
    by by apply simple_boxes_fit.
  assert (Hdo : (doCorrect (getDetector (theExposure s)) s).1 = Ok true).
  { apply doCorrect_all_proportional.
    - fold amps. intros Hnil. by rewrite Hnil in Hb.
    - simpl. apply Forall_fmap, Forall_true. intros amp. simpl. split; [done|lia]. }
  assert (Hrun : run s = (Ok tt, writeLog (LogInfoApplied (getId (getDetector (theExposure s))))
                                  (withMaskedImage (ampSteps sq t amps) s))).
  { rewrite (run_result s Hdo). fold amps.
    rewrite (forAmps_uniform sq t Hsq _ _ _ _ Hco Hfit). by destruct amps. }
  assert (Hmi' : mi' = ampSteps sq t amps mi) by (unfold mi'; by rewrite Hrun).
  rewrite Hrun, Hmi'. clear Hmi' Hrun.
  assert (Hpix : ∀ row col v, pixel imArr row col = Some v ->
            pixel (getImage (ampSteps sq t amps mi)) row col = Some (correct sq v) ∧
            pixel (getMask (ampSteps sq t amps mi)) row col
            = Some (if fltb t v then bitMask (suspectBit planes) else 0)).
  { intros row col v Hv.
    destruct (pixel_Some_bounds imArr (w * 2) (h * 2) row col v Hrows Hcols Hv) as [Hc Hr].
    destruct (ampSteps_pixel sq t Hsq Ht amps mi row col) as [_ H1].
    destruct H1 as [-> ->].
    { by apply simple_boxes_cover. }
    change (getImage mi) with imArr. rewrite Hv. split; [done|].
    change (getMask mi) with (map (map (fun _ : F => 0)) imArr).
    rewrite pixel_fmap, Hv. simpl. by destruct (fltb t v). }
  destruct (ampSteps_shape sq t amps mi) as [Hsi Hsm].
  split; [done|]. split; [|split].
  - symmetry. apply plane_ext.
    + by rewrite shape_fmap, Hsi.
    + intros row col v'. rewrite pixel_fmap.
      destruct (pixel imArr row col) as [v|] eqn:Hv; [|done]. intros [= <-].
      by apply Hpix.
  - symmetry. apply plane_ext.
    + rewrite shape_fmap, Hsm. change (getMask mi) with (map (map (fun _ : F => 0)) imArr).
      by rewrite shape_fmap.
    + intros row col v'. rewrite pixel_fmap.
      destruct (pixel imArr row col) as [v|] eqn:Hv; [|done]. intros [= <-].
      by apply Hpix.
  - apply ampSteps_variance.
Qed.

End BasicCorrection.

(** * Further properties of IsrTask *)

Section IsrRun.
Import IsrTask.
Context {F : Type} `{!Float F}.
Variable isr : Collaborators F.
Variable fw : Framework F.
Implicit Types (self : Task F) (s : Env F) (sensorRef : DataRef F).

Lemma callsWithin_refl allowed s : callsWithin allowed s s.
Proof. split; [done|]. exists []. by rewrite app_nil_r. Qed.

Lemma callsWithin_trans allowed s1 s2 s3 :
  callsWithin allowed s1 s2 -> callsWithin allowed s2 s3 -> callsWithin allowed s1 s3.
Proof.
  intros [Hm1 (l1 & Hc1 & Hl1)] [Hm2 (l2 & Hc2 & Hl2)]. split; [congruence|].
  exists (l1 ++ l2). split; [by rewrite Hc2, Hc1, app_assoc|by apply Forall_app].
Qed.

Lemma callsWithin_setExposure allowed mi s s' :
  callsWithin allowed s s' -> callsWithin allowed s (setExposure mi s').
Proof. done. Qed.

Lemma callsWithin_bind {A B} allowed (m : M F (Env F) A) (k : A -> M F (Env F) B) s :
  callsWithin allowed s (m s).2 ->
  (∀ a s1, callsWithin allowed s1 (k a s1).2) ->
  callsWithin allowed s ((m ≫= k) s).2.
Proof.
  intros Hm Hk. unfold_monad.
  destruct (m s) as [[a|e] s1]; simpl in *; [|done].
  eapply callsWithin_trans; [exact Hm|apply Hk].
Qed.

Lemma callOnExposure_within {A} allowed name (f : M F (MaskedImage F) A) s :
  name ∈ allowed -> callsWithin allowed s (callOnExposure name f s).2.
Proof.
  intros Hin. unfold callOnExposure.
  destruct (f _) as [r mi]. simpl. split; [done|].
  exists [name]. split; [done|]. by constructor.
Qed.

Lemma callOnExposure_calls {A} name (f : M F (MaskedImage F) A) s :
  isrCalls (callOnExposure name f s).2 = isrCalls s ++ [name].
Proof. unfold callOnExposure. by destruct (f _). Qed.

Lemma saturationDetection_within self detector s :
  callsWithin calledBeforeBias s (saturationDetection isr self detector s).2.
Proof.
  destruct detector; try apply callsWithin_refl.
  apply callOnExposure_within. set_solver.
Qed.

Lemma overscanCorrection_within self detector s :
  callsWithin calledBeforeBias s (overscanCorrection isr self detector s).2.
Proof.
  destruct detector as [amp| |]; try apply callsWithin_refl.
  unfold overscanCorrection, liftRes. unfold_monad. simpl.
  destruct (image_Factory isr (theExposure s) (getDiskBiasSec amp)); simpl;
    [|apply callsWithin_refl].
  apply callOnExposure_within. set_solver.
Qed.

Lemma withCastAmp_within cast (helper : Detector F -> M F (Env F) unit) s :
  (∀ d s0, callsWithin calledBeforeBias s0 (helper d s0).2) ->
  callsWithin calledBeforeBias s (withCastAmp cast helper s).2.
Proof.
  intros Hh. destruct cast as [a|]; simpl; [apply Hh|apply callsWithin_refl].
Qed.

Lemma inView_within {A} ccdExp bbox ampExp (m : M F (Env F) A) s :
  (∀ s0, callsWithin calledBeforeBias s0 (m s0).2) ->
  callsWithin calledBeforeBias s (inView fw ccdExp bbox ampExp m s).2.
Proof.
  intros Hm. unfold inView. specialize (Hm (setExposure ampExp s)).
  destruct (m (setExposure ampExp s)) as [r s']. simpl in *.
  by apply callsWithin_setExposure.
Qed.

Lemma runAmp_within self amp s :
  callsWithin calledBeforeBias s (runAmp isr fw self amp s).2.
Proof.
  unfold runAmp.
  apply callsWithin_bind; [apply callsWithin_refl|]. intros ccdExp s1.
  apply callsWithin_bind; [unfold liftRes; apply callsWithin_refl|]. intros ampExp s2.
  apply inView_within. intros s0.
  apply callsWithin_bind.
  - apply withCastAmp_within. apply saturationDetection_within.
  - intros _ s3. apply withCastAmp_within. apply overscanCorrection_within.
Qed.

Lemma runAmps_within self amps s :
  callsWithin calledBeforeBias s (runAmps isr fw self amps s).2.
Proof.
  revert s. induction amps as [|amp rest IH]; intros s; [apply callsWithin_refl|].
  simpl. apply callsWithin_bind; [apply runAmp_within|]. intros _ s1. apply IH.
Qed.

Lemma beforeBias_within self sensorRef s :
  callsWithin calledBeforeBias s (beforeBias isr fw self sensorRef s).2.
Proof.
  unfold beforeBias, obj_get, callPure. unfold_monad. simpl.
  destruct (datasets sensorRef !! "raw") as [raw|]; simpl; [|apply callsWithin_refl].
  assert (Hconv : callsWithin calledBeforeBias s
                    (recordCall "floatImageFromInt" (setExposure raw s))).
  { split; [done|]. exists ["floatImageFromInt"]. split; [done|].
    constructor; [set_solver|constructor]. }
  destruct (isr_floatImageFromInt fw raw) as [ccdExp|e]; simpl; [|done].
  destruct (cast_Ccd fw raw) as [c|]; simpl; [|done].
  eapply callsWithin_trans; [|apply runAmps_within]. done.
Qed.

Lemma run_beforeBias self sensorRef s :
  run isr fw self sensorRef s
  = match beforeBias isr fw self sensorRef s with
    | (Ok _, s') => (Raise (NameError "sensorRef"), s')
    | (Raise e, s') => (Raise e, s')
    end.
Proof.
  unfold run, beforeBias, obj_get, callPure. unfold_monad. simpl.
  destruct (datasets sensorRef !! "raw") as [raw|]; simpl; [|done].
  destruct (isr_floatImageFromInt fw raw) as [ccdExp|e]; simpl; [|done].
  destruct (cast_Ccd fw raw) as [c|]; simpl; [|done].
  by destruct (runAmps isr fw self (ccd_amps c) _) as [[u|e] s'].
Qed.

(** X12: the decorated [run] never returns.  The decorator records
    the start; the function of lines 120-170 either raises in the steps
    before [biasCorrection] or, those through, raises the [NameError]
    of [biasCorrection]; the decorator records the end.  The function
    itself writes no metadata: after the call the metadata hold what
    the two records of the decorator made of them.  Of the [isr]
    functions, only the three called before [biasCorrection] ever
    run. *)
Theorem run_never_returns logInfo self sensorRef s :
  let started := setMetadata (logInfo "runStart" (metadata s)) s in
  let before := beforeBias isr fw self sensorRef started in
  let r := timedRun isr fw logInfo self sensorRef s in
  r = (match before.1 with
       | Ok _ => Raise (NameError "sensorRef")
       | Raise e => Raise e
       end,
       setMetadata (logInfo "runEnd" (metadata before.2)) before.2) ∧
  raised r.1 = true ∧
  metadata r.2 = logInfo "runEnd" (logInfo "runStart" (metadata s)) ∧
  ∃ l, isrCalls r.2 = isrCalls s ++ l ∧
       Forall (fun c => c ∈ calledBeforeBias) l.
Proof.
  intros started before r.
  assert (Hr : r = (match before.1 with
                    | Ok _ => Raise (NameError "sensorRef")
                    | Raise e => Raise e
                    end,
                    setMetadata (logInfo "runEnd" (metadata before.2)) before.2)).
  { unfold r, timedRun, timeMethod.
    change ("run" +:+ "Start") with "runStart". change ("run" +:+ "End") with "runEnd".
    fold started. rewrite run_beforeBias. fold before.
    by destruct before as [[u|e] s']. }
  split; [exact Hr|]. rewrite Hr. simpl.
  pose proof (beforeBias_within self sensorRef started) as [Hmeta Hcalls].
  fold before in Hmeta, Hcalls.
  split; [by destruct before.1|]. split; [by rewrite Hmeta|]. exact Hcalls.
Qed.

(** X13: when the loop over the amplifiers returns, it has called, for
    every amplifier in turn, [isr.makeThresholdMask] and then
    [isr.overscanCorrection], and nothing else of [isr]. *)
Theorem runAmps_calls self amps s s' :
  runAmps isr fw self amps s = (Ok tt, s') ->
  isrCalls s'
  = isrCalls s ++ mjoin (replicate (length amps) ["makeThresholdMask"; "overscanCorrection"]).
Proof.
  revert s. induction amps as [|amp rest IH]; intros s.
  - simpl. intros [= <-]. by rewrite app_nil_r.
  - simpl runAmps. unfold_monad.
    destruct (runAmp isr fw self amp s) as [[[]|e] s1] eqn:Hamp; [|done].
    intros Hrest. apply IH in Hrest. rewrite Hrest.
    change (mjoin (replicate (length (amp :: rest)) ["makeThresholdMask"; "overscanCorrection"]))
      with (["makeThresholdMask"; "overscanCorrection"]
            ++ mjoin (replicate (length rest) ["makeThresholdMask"; "overscanCorrection"])).
    rewrite (app_assoc (isrCalls s)). f_equal.
    revert Hamp. unfold runAmp, liftRes, inView. unfold_monad. simpl.
    destruct (exposure_Factory fw (theExposure s) (getDiskAllPixels fw amp)) as [ampExp|e];
      simpl; [|done].
    destruct (cast_Amp fw (theExposure s) amp) as [a|]; simpl; [|done].
    pose proof (callOnExposure_calls "makeThresholdMask"
                  (isr_makeThresholdMask isr
                     (getSaturationLevel (amp_getElectronicParams a)) 0
                     (saturatedMaskName (config self))) (setExposure ampExp s)) as H1.
    change (saturationDetection isr self (AnAmp a) (setExposure ampExp s))
      with (callOnExposure "makeThresholdMask"
              (isr_makeThresholdMask isr
                 (getSaturationLevel (amp_getElectronicParams a)) 0
                 (saturatedMaskName (config self))) (setExposure ampExp s)).
    destruct (callOnExposure "makeThresholdMask" _ _) as [[u|e] s2]; simpl in *; [|done].
    unfold overscanCorrection, liftRes. unfold_monad. simpl.
    destruct (image_Factory isr (theExposure s2) (getDiskBiasSec a)) as [ov|e];
      simpl; [|done].
    pose proof (callOnExposure_calls "overscanCorrection"
                  (isr_overscanCorrection isr ov (overscanFitType (config self))
                     (overscanPolyOrder (config self))) s2) as H2.
    destruct (callOnExposure "overscanCorrection" _ _) as [[u'|e] s3]; simpl in *; [|done].
    intros [= _ <-]. simpl. by rewrite H2, H1, <- app_assoc.
Qed.

End IsrRun.

(** * The further statements on concrete inputs *)

Section FurtherLinearizeWitnesses.
Import ProportionalLinearizeTask TestProportionalLinearityTask Inputs Inputs.Linearize.

(** The amplifier covers the top row: the bottom row is as before. *)
Lemma run_uncovered_pixel_unchanged_witness :
  pixel (getImage (getMaskedImage (theExposure (run topOnly).2))) 1 0 = Some (q 3) ∧
  pixel (getMask (getMaskedImage (theExposure (run topOnly).2))) 1 0 = Some 0.
Proof.
  exact (run_uncovered_pixel_unchanged topOnly 1 0 eq_refl).
Defined.

(** The flagged pixel of the tiled exposure: from 0 to 128, bit 7. *)
Lemma run_mask_sets_only_suspect_witness :
  ∃ m', pixel (getMask (getMaskedImage (theExposure (run tiled).2))) 1 1 = Some m' ∧
        (m' = 0 ∨ m' = Z.lor 0 (bitMask 7)) ∧
        (∀ k, Z.testbit 0 k = true -> Z.testbit m' k = true) ∧
        (∀ k, k ≠ Z.of_nat 7 -> Z.testbit m' k = Z.testbit 0 k).
Proof.
  exact (run_mask_sets_only_suspect tiled 1 1 0 eq_refl).
Defined.

(** Coefficients (0, 0, 3): the image is as before. *)
Lemma run_zero_square_image_unchanged_witness :
  getImage (getMaskedImage (theExposure (run thresholdOnly).2))
  = getImage (getMaskedImage (theExposure thresholdOnly)).
Proof.
  apply run_zero_square_image_unchanged.
  repeat (constructor; [by intros sq rest [= <- _]|]). constructor.
Defined.

(** Coefficients (2, 0, 0): the mask and its planes are as before. *)
Lemma run_no_threshold_mask_unchanged_witness :
  getMask (getMaskedImage (theExposure (run squareOnly).2))
  = getMask (getMaskedImage (theExposure squareOnly)) ∧
  getMaskPlaneDict (getMaskedImage (theExposure (run squareOnly).2))
  = getMaskPlaneDict (getMaskedImage (theExposure squareOnly)).
Proof.
  apply run_no_threshold_mask_unchanged.
  repeat (constructor; [by intros sq c1 t more [= _ _ <- _]|]). constructor.
Defined.

(** The second amplifier has two coefficients: ValueError, with the top
    row corrected. *)
Lemma run_short_coefficients_later_amplifier_witness :
  run secondShort
  = (Raise ValueError, withMaskedImage (ampStep (q 2) (q 3) topRow) secondShort).
Proof.
  apply (run_short_coefficients_later_amplifier secondShort
           [amp "top" topRow "PROPORTIONAL" [q 2; q 0; q 3]]
           (amp "bottom" bottomRow "PROPORTIONAL" [q 2; q 0]) [] true).
  - reflexivity.
  - reflexivity.
  - reflexivity.
  - simpl. lia.
Defined.

(** Two amplifiers over the top row: 1 becomes 3 and then 21. *)
Lemma run_overlap_corrects_repeatedly_witness :
  (run overlapping).1 = Ok tt ∧
  pixel (getImage (getMaskedImage (theExposure (run overlapping).2))) 0 0 = Some (q 21) ∧
  pixel (getImage (getMaskedImage (theExposure (run overlapping).2))) 1 0 = Some (q 3).
Proof.
  assert (Hsq : feqb (q 2) f0 = false) by reflexivity.
  assert (Hne : getAmps (getDetector (theExposure overlapping)) ≠ []) by discriminate.
  assert (Hall : Forall (fun a => getLinearityType a = "PROPORTIONAL" ∧
                                  take 3 (getLinearityCoeffs a) = [q 2; f0; q 3])
                        (getAmps (getDetector (theExposure overlapping))))
    by repeat constructor.
  assert (Hfit : Forall (fun a => fitsIn (mi_bbox (getMaskedImage (theExposure overlapping)))
                                         (getBBox a) = true)
                        (getAmps (getDetector (theExposure overlapping))))
    by repeat constructor.
  destruct (run_overlap_corrects_repeatedly overlapping (q 2) (q 3) Hsq Hne Hall Hfit)
    as [Hok Hpix].
  split; [exact Hok|]. split; [exact (Hpix 0%nat 0%nat)|exact (Hpix 1%nat 0%nat)].
Defined.

(** Amplifiers of 1 by 1 pixel: the four boxes tile the 2 by 2 box. *)
Lemma makeSimpleDetector_tiles_witness :
  Forall (fun a => fitsIn (expBBox (1, 1)) (getBBox a) = true)
         (getAmps (makeSimpleDetector (1, 1) wrapped)) ∧
  coverage (expBBox (1, 1)) (getAmps (makeSimpleDetector (1, 1) wrapped)) 1 0 = 1%nat.
Proof.
  destruct (makeSimpleDetector_tiles 1 1 wrapped) as [Hfit Hcov];
    [reflexivity|lia|lia|].
  split; [exact Hfit|]. apply Hcov; simpl; lia.
Defined.

(** The test on the 2 by 2 ramp with coefficients (2, 0, 3). *)
Lemma basicCorrection_expected_witness :
  let s := basicCorrectionExposure (1, 1) wrapped defaultMaskPlanes
             [[q 1; q 2]; [q 3; q 4]] (q 2) (q 3) in
  (run s).1 = Ok tt ∧
  getImage (getMaskedImage (theExposure (run s).2)) = [[q 3; q 10]; [q 21; q 36]] ∧
  getMask (getMaskedImage (theExposure (run s).2)) = [[0; 0]; [0; 128]] ∧
  getVariance (getMaskedImage (theExposure (run s).2)) = [[q 1; q 2]; [q 3; q 4]].
Proof.
  assert (Hlen : length (getAmps wrapped) = 4%nat) by reflexivity.
  assert (Hw : 0 <= 1) by lia.
  assert (Hsq : feqb (q 2) f0 = false) by reflexivity.
  assert (Ht : fltb f0 (q 3) = true) by reflexivity.
  assert (Hrows : Z.of_nat (length [[q 1; q 2]; [q 3; q 4]]) = 1 * 2) by reflexivity.
  assert (Hcols : Forall (fun r : list qfloat => Z.of_nat (length r) = 1 * 2)
                         [[q 1; q 2]; [q 3; q 4]]) by repeat constructor.
  exact (basicCorrection_expected 1 1 wrapped defaultMaskPlanes
           [[q 1; q 2]; [q 3; q 4]] (q 2) (q 3) Hlen Hw Hw Hsq Ht Hrows Hcols).
Defined.

(** Coefficients (0, 0, 3): the second run changes nothing. *)
Lemma run_threshold_only_idempotent_witness :
  theExposure (run (run thresholdOnly).2).2 = theExposure (run thresholdOnly).2.
Proof.
  apply run_threshold_only_idempotent.
  repeat (constructor; [by intros sq rest [= <- _]|]). constructor.
Defined.

End FurtherLinearizeWitnesses.

Section FurtherIsrWitnesses.
Import IsrTask Inputs Inputs.Isr.

(** Two amplifiers, collaborators that return at once: four calls, in
    the order of the loop. *)
Lemma runAmps_calls_witness :
  isrCalls (runAmps idle idleFramework task [anAmp; anAmp] (env ramp)).2
  = ["makeThresholdMask"; "overscanCorrection"; "makeThresholdMask"; "overscanCorrection"].
Proof.
  apply (runAmps_calls idle idleFramework task [anAmp; anAmp] (env ramp)).
  reflexivity.
Defined.

(** With a raw frame and collaborators that return at once, [run]
    raises the NameError of [biasCorrection] after the two amplifiers. *)
Example run_on_raw_frame :
  let r := run idle idleFramework task rawRef (env ramp) in
  r.1 = Raise (NameError "sensorRef") ∧
  isrCalls r.2 = ["floatImageFromInt"; "makeThresholdMask"; "overscanCorrection";
                  "makeThresholdMask"; "overscanCorrection"] ∧
  metadata r.2 = ∅.
Proof. vm_compute. repeat split. Qed.

(** Without a raw frame [run] raises at once. *)
Example run_without_raw_frame :
  run idle idleFramework task biasRef (env ramp)
  = (Raise (ExternalError "NoResults"), env ramp).
Proof. reflexivity. Qed.

End FurtherIsrWitnesses.
